(** * which: the import path of the main package of a Go executable

    A shallow embedding of [which.go].  Go strings are byte strings and are
    modelled as [string]; Go's [int] indices are modelled in [Z], with [-1]
    for "not found" exactly as the [strings] package returns it.  The host is
    a Unix one: [os.PathSeparator] is the slash, so [filepath.FromSlash] and
    [filepath.ToSlash] leave their argument alone. *)

From Stdlib Require Import String Ascii List ZArith Lia Bool Permutation.
Import ListNotations.
Open Scope string_scope.
Open Scope Z_scope.

(** ** The [strings] package, as far as [which.go] uses it *)

Module Strings.

Definition len (s : string) : Z := Z.of_nat (String.length s).

(** [s[i:]] *)
Fixpoint drop (n : nat) (s : string) : string :=
  match n, s with
  | O, _ => s
  | S _, EmptyString => EmptyString
  | S n', String _ s' => drop n' s'
  end.

(** [s[:i]] *)
Fixpoint take (n : nat) (s : string) : string :=
  match n, s with
  | O, _ => EmptyString
  | S _, EmptyString => EmptyString
  | S n', String c s' => String c (take n' s')
  end.

(** Slices are only ever taken at indices that an index function returned, so
    the run-time bounds check of Go never fires; the model is total. *)
Definition slice_from (s : string) (i : Z) : string := drop (Z.to_nat i) s.
Definition slice_to (s : string) (i : Z) : string := take (Z.to_nat i) s.

Fixpoint HasPrefix (s prefix : string) : bool :=
  match prefix, s with
  | EmptyString, _ => true
  | String _ _, EmptyString => false
  | String c p', String d s' => Ascii.eqb d c && HasPrefix s' p'
  end.

Definition HasSuffix (s suffix : string) : bool :=
  (len suffix <=? len s) && String.eqb (slice_from s (len s - len suffix)) suffix.

Definition TrimSuffix (s suffix : string) : string :=
  if HasSuffix s suffix then slice_to s (len s - len suffix) else s.

(** First index of [substr] in [s], or [-1]. *)
Fixpoint Index (s substr : string) : Z :=
  if HasPrefix s substr then 0
  else match s with
       | EmptyString => -1
       | String _ s' => let r := Index s' substr in
                        if r =? -1 then -1 else r + 1
       end.

Definition Contains (s substr : string) : bool := Index s substr >=? 0.

(** Last index of [substr] in [s], or [-1]. *)
Fixpoint LastIndex (s substr : string) : Z :=
  match s with
  | EmptyString => if HasPrefix s substr then 0 else -1
  | String _ s' => let r := LastIndex s' substr in
                   if r =? -1 then (if HasPrefix s substr then 0 else -1)
                   else r + 1
  end.

Fixpoint IndexByte (s : string) (c : ascii) : Z :=
  match s with
  | EmptyString => -1
  | String d s' => if Ascii.eqb d c then 0
                   else let r := IndexByte s' c in
                        if r =? -1 then -1 else r + 1
  end.

Fixpoint LastIndexByte (s : string) (c : ascii) : Z :=
  match s with
  | EmptyString => -1
  | String d s' => let r := LastIndexByte s' c in
                   if r =? -1 then (if Ascii.eqb d c then 0 else -1)
                   else r + 1
  end.

(** [strings.Split(s, sep)] for a one-byte separator. *)
Fixpoint Split (s : string) (sep : ascii) : list string :=
  match s with
  | EmptyString => [EmptyString]
  | String c s' =>
      if Ascii.eqb c sep then EmptyString :: Split s' sep
      else match Split s' sep with
           | [] => [String c EmptyString]
           | x :: xs => String c x :: xs
           end
  end.

(** [strings.Join(elems, sep)] *)
Fixpoint Join (elems : list string) (sep : string) : string :=
  match elems with
  | [] => EmptyString
  | [x] => x
  | x :: xs => x ++ sep ++ Join xs sep
  end.

(** The byte [c] occurs in [s]. *)
Fixpoint occurs (c : ascii) (s : string) : bool :=
  match s with
  | EmptyString => false
  | String d s' => Ascii.eqb d c || occurs c s'
  end.

(** The last byte of [s] is [c]. *)
Fixpoint ends_with (c : ascii) (s : string) : bool :=
  match s with
  | EmptyString => false
  | String d EmptyString => Ascii.eqb d c
  | String _ s' => ends_with c s'
  end.

End Strings.
Import Strings.

(** ** [os] and [path/filepath] on a Unix host *)

Module Filepath.

Definition PathSeparator : ascii := "/"%char.
Definition Separator : string := String PathSeparator EmptyString.

Definition FromSlash (path : string) : string := path.
Definition ToSlash (path : string) : string := path.

(** One step of the lexical clean-up of [filepath.Clean], on the stack of the
    path elements kept so far (innermost first).  An empty element and [.]
    are dropped; [..] removes the element before it, is dropped at the root
    of a rooted path and is kept at the head of a relative one. *)
Definition clean_step (rooted : bool) (out : list string) (elem : string)
  : list string :=
  if String.eqb elem "" then out
  else if String.eqb elem "." then out
  else if String.eqb elem ".." then
    match out with
    | [] => if rooted then [] else [".."]
    | top :: rest => if String.eqb top ".." then ".." :: out else rest
    end
  else elem :: out.

Definition Clean (path : string) : string :=
  if String.eqb path "" then "."
  else
    let rooted := HasPrefix path Separator in
    let out := rev (fold_left (clean_step rooted) (Split path PathSeparator) []) in
    if rooted then Separator ++ Join out Separator
    else match out with
         | [] => "."
         | _ => Join out Separator
         end.

(** [filepath.Join]: the elements from the first non-empty one on, joined by
    the separator and cleaned; the empty string when every element is empty. *)
Fixpoint Join (elem : list string) : string :=
  match elem with
  | [] => ""
  | e :: rest => if String.eqb e "" then Join rest
                 else Clean (Strings.Join elem Separator)
  end.

(** Strip the trailing separators of [filepath.Base]. *)
Fixpoint strip_trailing (path : string) : string :=
  match path with
  | EmptyString => EmptyString
  | String c s' =>
      match strip_trailing s' with
      | EmptyString => if Ascii.eqb c PathSeparator then EmptyString
                       else String c EmptyString
      | t => String c t
      end
  end.

Definition Base (path : string) : string :=
  if String.eqb path "" then "."
  else
    let path := strip_trailing path in
    let i := LastIndexByte path PathSeparator in
    let path := if 0 <=? i then slice_from path (i + 1) else path in
    if String.eqb path "" then Separator else path.

Definition Dir (path : string) : string :=
  let i := LastIndexByte path PathSeparator in
  Clean (slice_to path (i + 1)).

End Filepath.

(** ** [which.go] *)

Definition src : string := Filepath.FromSlash "/src/".
(** The variable [mod] of the source; [mod] is reserved here. *)
Definition mod_ : string := Filepath.FromSlash "/pkg/mod/".

(** [pathtomodule] moves the [@version] element of a directory below
    [$GOPATH/pkg/mod/] to the end of the package path. *)
Definition pathtomodule (dir : string) : string :=
  let ati := LastIndexByte dir "@"%char in
  if ati =? -1 then dir
  else
    let versuf := slice_from dir ati in
    let tdir := IndexByte versuf Filepath.PathSeparator in
    if tdir =? -1 then dir
    else Filepath.Join [slice_to dir ati; slice_from versuf tdir]
         ++ slice_to versuf tdir.

(** *** Platforms and executables *)

Record PlatformType := { GOOS : string; GOARCH : string }.

(** A [*PlatformType]: one of the eight package-level variables, or any other
    allocation, told apart by its address.  [Exec.Import] compares pointers,
    not the values behind them. *)
Inductive PlatformPtr :=
| PlatformDarwin386 | PlatformDarwinAMD64
| PlatformFreeBSD386 | PlatformFreeBSDAMD64
| PlatformLinux386 | PlatformLinuxAMD64
| PlatformWindows386 | PlatformWindowsAMD64
| PlatformAt (addr : nat) (v : PlatformType).

Definition deref (p : PlatformPtr) : PlatformType :=
  match p with
  | PlatformDarwin386 => {| GOOS := "darwin"; GOARCH := "386" |}
  | PlatformDarwinAMD64 => {| GOOS := "darwin"; GOARCH := "amd64" |}
  | PlatformFreeBSD386 => {| GOOS := "freebsd"; GOARCH := "386" |}
  | PlatformFreeBSDAMD64 => {| GOOS := "freebsd"; GOARCH := "amd64" |}
  | PlatformLinux386 => {| GOOS := "linux"; GOARCH := "386" |}
  | PlatformLinuxAMD64 => {| GOOS := "linux"; GOARCH := "amd64" |}
  | PlatformWindows386 => {| GOOS := "windows"; GOARCH := "386" |}
  | PlatformWindowsAMD64 => {| GOOS := "windows"; GOARCH := "amd64" |}
  | PlatformAt _ v => v
  end.

Definition ptr_eqb (p q : PlatformPtr) : bool :=
  match p, q with
  | PlatformDarwin386, PlatformDarwin386
  | PlatformDarwinAMD64, PlatformDarwinAMD64
  | PlatformFreeBSD386, PlatformFreeBSD386
  | PlatformFreeBSDAMD64, PlatformFreeBSDAMD64
  | PlatformLinux386, PlatformLinux386
  | PlatformLinuxAMD64, PlatformLinuxAMD64
  | PlatformWindows386, PlatformWindows386
  | PlatformWindowsAMD64, PlatformWindowsAMD64 => true
  | PlatformAt a _, PlatformAt b _ => Nat.eqb a b
  | _, _ => false
  end.

(** [PlatformType.String] *)
Definition PlatformString (typ : PlatformType) : string :=
  GOOS typ ++ "_" ++ GOARCH typ.

(** What [Exec.Import] reads of a [gosym.Table]: the functions in table
    order, the files with the functions recorded for each, and the answer of
    the line table for a program counter (file, line, enclosing function). *)
Record Func := { Name : string; Entry : Z }.
Record Obj := { Funcs : list Func }.
Record Table := {
  TFuncs : list Func;
  Files : list (string * Obj);
  PCToLine : Z -> string * Z * option Func
}.

Definition LookupFunc (t : Table) (name : string) : option Func :=
  find (fun f => String.eqb (Name f) name) (TFuncs t).

Record Exec := { Path : string; Type_ : PlatformPtr; table : Table }.

Inductive error := ErrNotGoExec | ErrGuessFail.

(** *** The environment *)

(** The process environment and the file system, as the package reads them:
    [runtime.GOROOT()], the value [runtime.GOROOT()] has once [$GOROOT] is
    cleared ([None] when [init] could not clear it), [$GOPATH],
    [build.Default.GOPATH], and [filepath.EvalSymlinks] ([None] on error). *)
Record Env := {
  GOROOT : string;
  GOROOT_FINAL : option string;
  GOPATH : string;
  DefaultGOPATH : string;
  EvalSymlinks : string -> option string
}.

(** [filepath.EvalSymlinks] is documented to call [Clean] on its result. *)
Definition symlinks_clean (env : Env) : Prop :=
  forall p q, EvalSymlinks env p = Some q -> Filepath.Clean q = q.

(** The order in which one [range] over a map visits its keys.  The Go
    runtime picks it afresh for every loop: [range_keys] is indexed by the
    string the loop body works on, [range_files] serves the loop over
    [Table.Files]. *)
Record MapOrder := {
  range_keys : string -> list string -> list string;
  range_files : list (string * Obj) -> list (string * Obj)
}.

Definition is_order (o : MapOrder) : Prop :=
  (forall k l, Permutation l (range_keys o k l)) /\
  (forall l, Permutation l (range_files o l)).

(** [m[k] = struct{}{}] on a [map[string]struct{}], kept as the list of its keys. *)
Definition map_insert (k : string) (m : list string) : list string :=
  if existsb (String.eqb k) m then m else m ++ [k].

Section Which.

Variable env : Env.
Variable order : MapOrder.

(** The variable [filtered] after [init] has run. *)
Definition filtered : list string :=
  let m := [Filepath.FromSlash "/tmp/makerelease";
            Filepath.FromSlash "<autogenerated>";
            Filepath.FromSlash "c:/go/src";
            Filepath.FromSlash "/usr/local/go/src"] in
  let m := map_insert (GOROOT env) m in
  match GOROOT_FINAL env with
  | Some final => map_insert final m
  | None => m
  end.

Definition isfiltered (file : string) : bool :=
  existsb (fun f => Contains file f) (range_keys order file filtered).

(** The inner loop of [guesspkg] over the directories, for one search string
    [s]; the third component tells that the loop returned from [guesspkg]. *)
Fixpoint guess_dirs (s : string) (dirs : list string) (pkg : string)
  (unique : bool) : string * bool * bool :=
  match dirs with
  | [] => (pkg, unique, false)
  | dir :: rest =>
      if Contains dir s then
        let i := LastIndex dir src in
        if negb (i =? -1) then
          let pkg := slice_from dir (i + len src) in
          if unique then (pkg, false, true)
          else guess_dirs s rest pkg true
        else guess_dirs s rest pkg unique
      else guess_dirs s rest pkg unique
  end.

(** The outer loop of [guesspkg] over the search strings. *)
Fixpoint guess_strings (ss : list string) (dirs : list string) (pkg : string)
  (unique : bool) : string * bool :=
  match ss with
  | [] => (pkg, unique)
  | s :: ss' =>
      let '(pkg, unique, returned) :=
        guess_dirs s (range_keys order s dirs) pkg unique in
      if returned then (pkg, unique)
      else if unique then (pkg, unique)
      else guess_strings ss' dirs pkg unique
  end.

Definition guesspkg (name : string) (dirs : list string) : string * bool :=
  let '(pkg, unique) :=
    guess_strings ["cmd" ++ Filepath.Separator ++ name; name] dirs "" false in
  (Filepath.ToSlash pkg, unique).

Definition getgopath : list string :=
  let gopath := GOPATH env in
  let gopath := if String.eqb gopath "" then DefaultGOPATH env else gopath in
  Split gopath ":"%char.

(** [EvalSymlinks], keeping the path as given when it fails. *)
Definition canonical (path : string) : string :=
  match EvalSymlinks env path with
  | Some abs => abs
  | None => path
  end.

(** The loop of [genpkgpath] over [checkpaths]; [None] when it runs to the
    end without returning. *)
Fixpoint check_roots (dir : string) (checkpaths : list string)
  : option (string * option error) :=
  match checkpaths with
  | [] => None
  | path :: rest =>
      let path := canonical path in
      let pth := path ++ Filepath.Separator in
      if negb (HasPrefix dir pth) then check_roots dir rest
      else
        let spth := pth ++ "src" ++ Filepath.Separator in
        if HasPrefix dir spth then Some (slice_from dir (len spth), None)
        else
          let mpth := Filepath.Join [pth; "pkg"; "mod"] ++ Filepath.Separator in
          if HasPrefix dir mpth
          then Some (pathtomodule (slice_from dir (len mpth)), None)
          else check_roots dir rest
  end.

Definition genpkgpath (name dir : string) : string * option error :=
  let checkpaths := GOROOT env :: getgopath in
  let dir := canonical dir in
  match check_roots dir checkpaths with
  | Some r => r
  | None =>
      let '(pkg, unique) := guesspkg name [dir] in
      if unique then (pkg, None)
      else
        let i := LastIndex dir mod_ in
        if negb (i =? -1)
        then (pathtomodule (slice_from dir (i + len mod_)), None)
        else ("", Some ErrGuessFail)
  end.

(** The executable's base name, without [.exe] for the two Windows
    platforms: the first lines of [Exec.Import]. *)
Definition searchname (ex : Exec) : string :=
  let name := Filepath.Base (Path ex) in
  if ptr_eqb (Type_ ex) PlatformWindows386
     || ptr_eqb (Type_ ex) PlatformWindowsAMD64
  then TrimSuffix name ".exe"
  else name.

(** The body of the loop over [obj.Funcs] in [Exec.Import]. *)
Definition scan_funcs (file : string) (dirs : list string) (funcs : list Func)
  : list string :=
  fold_left
    (fun dirs f =>
       if String.eqb (Name f) "main.main" && negb (isfiltered file)
       then map_insert (Filepath.Dir file) dirs
       else dirs)
    funcs dirs.

(** The loop over [ex.table.Files] in [Exec.Import]. *)
Definition scan_files (files : list (string * Obj)) (dirs : list string)
  : list string :=
  fold_left (fun dirs fo => scan_funcs (fst fo) dirs (Funcs (snd fo))) files dirs.

(** [Exec.Import], with the local map [dirs] as it is when the method
    returns next to the two results. *)
Definition Import_st (ex : Exec) : list string * (string * option error) :=
  let dirs := @nil string in
  let name := searchname ex in
  match LookupFunc (table ex) "main.main" with
  | None => (dirs, ("", Some ErrGuessFail))
  | Some mainfn =>
      let '(file, _, fn) := PCToLine (table ex) (Entry mainfn) in
      match fn with
      | Some _ => (dirs, genpkgpath name (Filepath.Dir file))
      | None =>
          let dirs := scan_files (range_files order (Files (table ex))) dirs in
          let '(pkg, unique) := guesspkg name dirs in
          if unique && negb (String.eqb pkg "") then (dirs, (pkg, None))
          else (dirs, ("", Some ErrGuessFail))
      end
  end.

Definition Import (ex : Exec) : string * option error := snd (Import_st ex).

End Which.

(** The order in which the keys were inserted, and its reverse. *)
Definition insertion_order : MapOrder :=
  {| range_keys := fun _ l => l; range_files := fun l => l |}.
Definition reverse_order : MapOrder :=
  {| range_keys := fun _ l => rev l; range_files := fun l => rev l |}.

(** ** Specification vocabulary *)

(** A path as [Clean] leaves it: not empty, and without a trailing separator
    unless it is the root. *)
Definition tidy (d : string) : Prop :=
  d <> "" /\ (ends_with Filepath.PathSeparator d = true -> d = Filepath.Separator).

Definition element (e : string) : Prop :=
  e <> "" /\ ends_with Filepath.PathSeparator e = false.

(** A directory counts for the search string [s] when it contains [s] and a
    [/src/] marker; it then proposes what follows its last marker. *)
Definition counts (s dir : string) : bool :=
  Contains dir s && negb (LastIndex dir src =? -1).

Definition proposal (dir : string) : string :=
  slice_from dir (LastIndex dir src + len src).

(** What one pass over the directories leaves in [pkg] and [unique], told
    from the directories that count, in the order of the pass. *)
Definition pass_result (pkg : string) (hits : list string) : string * bool * bool :=
  match hits with
  | [] => (pkg, false, false)
  | [d] => (proposal d, true, false)
  | _ :: d2 :: _ => (proposal d2, false, true)
  end.

(** The pair of a file and one of its functions adds to the candidates. *)
Definition contributes (env : Env) (file : string) (f : Func) : Prop :=
  Name f = "main.main" /\
  forall frag, In frag (filtered env) -> Contains file frag = false.

(** ** Fixtures *)

(** An environment with one search root besides the toolchain's, on a file
    system without symbolic links to resolve. *)
Definition env_of (goroot gopath : string) : Env :=
  {| GOROOT := goroot; GOROOT_FINAL := Some goroot; GOPATH := gopath;
     DefaultGOPATH := "/home/gopher/go"; EvalSymlinks := fun _ => None |}.

Definition main_main : Func := {| Name := "main.main"; Entry := 4198400 |}.

(** A table whose line table names no function for any address, with
    [main.main] recorded for each of [files]. *)
Definition table_of (files : list string) : Table :=
  {| TFuncs := [{| Name := "runtime.main"; Entry := 4194304 |}; main_main];
     Files := map (fun file => (file, {| Funcs := [main_main] |})) files;
     PCToLine := fun _ => ("", 0, None) |}.

(** A table whose line table places [main.main] in [file]. *)
Definition table_at (file : string) : Table :=
  {| TFuncs := [main_main]; Files := [];
     PCToLine := fun _ => (file, 12, Some main_main) |}.

(** A file system on which the module cache [/other/pkg/mod] is a symbolic
    link to [/srv/cache]. *)
Definition env_linked : Env :=
  {| GOROOT := "/usr/lib/go"; GOROOT_FINAL := Some "/usr/lib/go";
     GOPATH := "/root"; DefaultGOPATH := "/home/gopher/go";
     EvalSymlinks := fun p =>
       if String.eqb p "/other/pkg/mod/example.com/foo@v2.0.0"
       then Some "/srv/cache/example.com/foo@v2.0.0" else None |}.

Definition exec_of (path : string) (typ : PlatformPtr) (t : Table) : Exec :=
  {| Path := path; Type_ := typ; table := t |}.

(** A table without [main.main]. *)
Definition table_without_main : Table :=
  {| TFuncs := [{| Name := "runtime.main"; Entry := 4194304 |}];
     Files := [("/w/src/x/prog/main.go", {| Funcs := [main_main] |})];
     PCToLine := fun _ => ("/w/src/x/prog/main.go", 12, Some main_main) |}.

(** A result of [Import] is either a path that is not empty, without an
    error, or an error with the empty path. *)
Definition exclusive (r : string * option error) : Prop :=
  match r with
  | (p, None) => p <> ""
  | (p, Some _) => p = ""
  end.

(** The result of the pass of [guesspkg] for the search string [s] alone. *)
Definition single_pass (order : MapOrder) (s : string) (dirs : list string)
  : string * bool :=
  let '(pkg, unique, _) := guess_dirs s (range_keys order s dirs) "" false in
  (pkg, unique).

(** The Search Root List of [genpkgpath], and the two prefixes it tries
    below a (canonicalised) root. *)
Definition checkpaths (env : Env) : list string := GOROOT env :: getgopath env.

Definition src_prefix (root : string) : string :=
  (root ++ Filepath.Separator) ++ "src" ++ Filepath.Separator.

Definition mod_prefix (root : string) : string :=
  Filepath.Join [root ++ Filepath.Separator; "pkg"; "mod"] ++ Filepath.Separator.

(** The loop over the roots returns at [root] for the directory [dir]. *)
Definition claims_dir (root dir : string) : bool :=
  HasPrefix dir (root ++ Filepath.Separator)
  && (HasPrefix dir (src_prefix root) || HasPrefix dir (mod_prefix root)).

(** What the loop returns at the root that claims [dir]. *)
Definition root_answer (root dir : string) : string :=
  if HasPrefix dir (src_prefix root)
  then slice_from dir (len (src_prefix root))
  else pathtomodule (slice_from dir (len (mod_prefix root))).

(** ** Detection: [newtbl], [NewExec] and the package-level [Import] *)

(** An [error] of the package: one of its two variables, or a value made by
    [errors.New], known by its message. *)
Inductive anyerror :=
| Known (e : error)
| ErrorString (msg : string).

(** The nil [*PlatformType]: an address that is none of the eight variables. *)
Definition nil_platform : PlatformPtr :=
  PlatformAt 0 {| GOOS := ""; GOARCH := "" |}.

(** An opened [tabler]: what each of its methods returns (the value and the
    message of the error, if any), and the handle that [Close] releases. *)
Record tabler := {
  handle : nat;
  Sym : list Byte.byte * option string;
  Pcln : list Byte.byte * option string;
  Text : Z * option string;
  TypeOf : PlatformPtr
}.

(** A symbol table builder: [None] when it returns an error. *)
Definition builder := string -> option tabler.

(** The named results of [newtbl]. *)
Record tblstate := {
  typ : PlatformPtr;
  symtab : list Byte.byte;
  pclntab : list Byte.byte;
  text : Z;
  err : option anyerror
}.

Definition tblstate_zero : tblstate :=
  {| typ := nil_platform; symtab := []; pclntab := []; text := 0; err := None |}.

(** The closure [fail] of [newtbl], without its call of [Close]. *)
Definition fail (msg : string) : option anyerror :=
  Some (ErrorString ("which: unable to read Go symbol table: " ++ msg)).

(** The loop of [newtbl] over the builders; [closed] collects the handles
    that [Close] was called on, in the order of the calls. *)
Fixpoint newtbl_loop (builders : list builder) (path : string)
  (st : tblstate) (closed : list nat) : tblstate * list nat :=
  match builders with
  | [] => (st, closed)
  | newt :: rest =>
      match newt path with
      | None =>
          newtbl_loop rest path
            {| typ := typ st; symtab := symtab st; pclntab := pclntab st;
               text := text st; err := Some (Known ErrNotGoExec) |} closed
      | Some tbl =>
          match Sym tbl with
          | (s, Some msg) =>
              newtbl_loop rest path
                {| typ := typ st; symtab := s; pclntab := pclntab st;
                   text := text st; err := fail msg |}
                (closed ++ [handle tbl])%list
          | (s, None) =>
              match Pcln tbl with
              | (p, Some msg) =>
                  newtbl_loop rest path
                    {| typ := typ st; symtab := s; pclntab := p;
                       text := text st; err := fail msg |}
                    (closed ++ [handle tbl])%list
              | (p, None) =>
                  match Text tbl with
                  | (t, Some msg) =>
                      newtbl_loop rest path
                        {| typ := typ st; symtab := s; pclntab := p;
                           text := t; err := fail msg |}
                        (closed ++ [handle tbl])%list
                  | (t, None) =>
                      ({| typ := TypeOf tbl; symtab := s; pclntab := p;
                          text := t; err := None |},
                       (closed ++ [handle tbl])%list)
                  end
              end
          end
      end
  end.

Definition newtbl (alltbl : list builder) (path : string) : tblstate * list nat :=
  newtbl_loop alltbl path tblstate_zero [].

Section Detection.

(** The three builders, which other files of the package define, and the
    two constructors of [debug/gosym]: [NewLineTable] ([None] for nil) and
    [NewTable] ([None] when it returns an error). *)
Variables newelf newmacho newpe : builder.
Variable LineTable : Type.
Variable NewLineTable : list Byte.byte -> Z -> option LineTable.
Variable NewTable : list Byte.byte -> LineTable -> option Table.

(** [alltbl] as [init] leaves it on a host whose [runtime.GOOS] is [goos]. *)
Definition alltbl (goos : string) : list builder :=
  if String.eqb goos "darwin" then [newmacho; newelf; newpe]
  else if String.eqb goos "windows" then [newpe; newmacho; newelf]
  else [newelf; newmacho; newpe].

Definition NewExec (goos : string) (path : string) : option Exec * option anyerror :=
  let st := fst (newtbl (alltbl goos) path) in
  match err st with
  | Some e => (None, Some e)
  | None =>
      match NewLineTable (pclntab st) (text st) with
      | None => (None, Some (Known ErrNotGoExec))
      | Some lntab =>
          match NewTable (symtab st) lntab with
          | None => (None, Some (Known ErrNotGoExec))
          | Some tab =>
              (Some {| Path := path; Type_ := typ st; table := tab |}, None)
          end
      end
  end.

(** The package-level [Import]. *)
Definition Import_path (env : Env) (order : MapOrder) (goos : string)
  (path : string) : string * option anyerror :=
  match NewExec goos path with
  | (Some ex, None) =>
      let '(pkg, e) := Import env order ex in (pkg, option_map Known e)
  | (_, e) => ("", e)
  end.

End Detection.

(** A builder is complete on [path] when it opens the file and its three
    extractions succeed. *)
Definition complete (path : string) (newt : builder) : bool :=
  match newt path with
  | Some tbl =>
      match snd (Sym tbl), snd (Pcln tbl), snd (Text tbl) with
      | None, None, None => true
      | _, _, _ => false
      end
  | None => false
  end.

(** The error that an incomplete builder leaves in [err]. *)
Definition builder_error (path : string) (newt : builder) : option anyerror :=
  match newt path with
  | None => Some (Known ErrNotGoExec)
  | Some tbl =>
      match snd (Sym tbl), snd (Pcln tbl), snd (Text tbl) with
      | Some msg, _, _ => fail msg
      | None, Some msg, _ => fail msg
      | None, None, Some msg => fail msg
      | None, None, None => None
      end
  end.

(** The builders that [newtbl] calls: those up to the first complete one. *)
Fixpoint tried (path : string) (builders : list builder) : list builder :=
  match builders with
  | [] => []
  | newt :: rest => if complete path newt then [newt] else newt :: tried path rest
  end.

(** The handles of the builders that opened the file. *)
Fixpoint opened (path : string) (builders : list builder) : list nat :=
  match builders with
  | [] => []
  | newt :: rest =>
      match newt path with
      | Some tbl => handle tbl :: opened path rest
      | None => opened path rest
      end
  end.

(** An ELF reader for the fixtures: it opens [/bin/tool] and nothing else. *)
Definition elf_only : builder :=
  fun path =>
    if String.eqb path "/bin/tool"
    then Some {| handle := 3; Sym := ([], None); Pcln := ([Byte.xfb], None);
                 Text := (4198400, None); TypeOf := PlatformLinuxAMD64 |}
    else None.

(** A PE reader that opens every file and finds no line table in it. *)
Definition pe_broken : builder :=
  fun _ => Some {| handle := 4; Sym := ([], None);
                   Pcln := ([], Some "no .gopclntab section");
                   Text := (0, None); TypeOf := PlatformWindowsAMD64 |}.

Definition no_builder : builder := fun _ => None.

(** The package-level [Import] gives a path that is not empty, or an error. *)
Definition exclusive_any (r : string * option anyerror) : Prop :=
  match r with
  | (p, None) => p <> ""
  | (p, Some _) => p = ""
  end.

(** What a complete builder hands to [newtbl]. *)
Definition extracted (tbl : tabler) : tblstate :=
  {| typ := TypeOf tbl; symtab := fst (Sym tbl); pclntab := fst (Pcln tbl);
     text := fst (Text tbl); err := None |}.

(** The two constructors of [debug/gosym] for the fixtures: a line table is
    its bytes and its text address; a table is built only from a line table
    that is not empty. *)
Definition line_table_of (pcln : list Byte.byte) (text : Z)
  : option (list Byte.byte * Z) := Some (pcln, text).

Definition table_from (file : string) (sym : list Byte.byte)
  (lntab : list Byte.byte * Z) : option Table :=
  match fst lntab with
  | [] => None
  | _ => Some (table_at file)
  end.

(** The environment of a program built with [-trimpath]: [runtime.GOROOT()]
    is empty. *)
Definition env_trimpath : Env :=
  {| GOROOT := ""; GOROOT_FINAL := None; GOPATH := "/home/gopher/go";
     DefaultGOPATH := "/home/gopher/go"; EvalSymlinks := fun _ => None |}.

(** ** Tests *)

Example pathtomodule_fred :
  pathtomodule "fred@v1.2.3/cmd/program" = "fred/cmd/program@v1.2.3".
Proof. reflexivity. Qed.

Example pathtomodule_top : pathtomodule "a.b/x/fred@v1.0.0" = "a.b/x/fred@v1.0.0".
Proof. reflexivity. Qed.

Example Clean_examples :
  map Filepath.Clean ["a//b/./c/.."; "/../a"; "../../a/.."; ""; "/"; "a/"; "//x//"]
  = ["a/b"; "/a"; "../.."; "."; "/"; "a"; "/x"].
Proof. reflexivity. Qed.

Example Base_Dir_examples :
  map Filepath.Base ["/bin/prog.exe"; "prog"; ""; "///"; "a/b/"]
  = ["prog.exe"; "prog"; "."; "/"; "b"]
  /\ map Filepath.Dir ["/w/src/x/main.go"; "main.go"; "/main.go"; ""; "a/b/"]
     = ["/w/src/x"; "."; "/"; "."; "a/b"].
Proof. split; reflexivity. Qed.

(** ** Facts about the string primitives *)

Section StringFacts.

Lemma take_drop (n : nat) (s : string) : take n s ++ drop n s = s.
Proof.
  revert s; induction n as [|n IH]; intros [|c s]; simpl; try reflexivity.
  now rewrite IH.
Qed.

Lemma drop_drop (m n : nat) (s : string) : drop n (drop m s) = drop (m + n) s.
Proof.
  revert s; induction m as [|m IH]; intros s; simpl; [reflexivity|].
  destruct s as [|c s]; [now destruct n|apply IH].
Qed.

Lemma length_append (a b : string) :
  String.length (a ++ b) = (String.length a + String.length b)%nat.
Proof. induction a as [|c a IH]; simpl; [reflexivity|now rewrite IH]. Qed.

Lemma append_assoc (a b c : string) : (a ++ b) ++ c = a ++ b ++ c.
Proof. induction a as [|x a IH]; simpl; [reflexivity|now rewrite IH]. Qed.

Lemma append_nil_r (a : string) : a ++ "" = a.
Proof. induction a as [|x a IH]; simpl; [reflexivity|now rewrite IH]. Qed.

Lemma append_nonempty_r (a b : string) : b <> "" -> a ++ b <> "".
Proof. destruct a; simpl; [trivial|discriminate]. Qed.

Lemma drop_append (a b : string) : drop (String.length a) (a ++ b) = b.
Proof. induction a as [|c a IH]; simpl; [now destruct b|exact IH]. Qed.

Lemma HasPrefix_append (a b : string) : HasPrefix (a ++ b) a = true.
Proof.
  induction a as [|c a IH]; simpl; [now destruct b|].
  now rewrite Ascii.eqb_refl, IH.
Qed.

Lemma HasPrefix_split (s p : string) :
  HasPrefix s p = true -> s = p ++ drop (String.length p) s.
Proof.
  revert s; induction p as [|c p IH]; intros s H; simpl in *.
  - reflexivity.
  - destruct s as [|d s]; [discriminate|].
    apply andb_true_iff in H as [Hc Hp].
    apply Ascii.eqb_eq in Hc; subst d.
    simpl. f_equal. now apply IH.
Qed.

Lemma ends_with_append (c : ascii) (a b : string) :
  b <> "" -> ends_with c (a ++ b) = ends_with c b.
Proof.
  intros Hb; induction a as [|x a IH]; simpl; [reflexivity|].
  destruct (a ++ b) eqn:E; [|exact IH].
  destruct a; simpl in E; [contradiction|discriminate].
Qed.

Lemma ends_with_occurs (c : ascii) (s : string) :
  ends_with c s = true -> occurs c s = true.
Proof.
  induction s as [|x s IH]; simpl; [discriminate|].
  destruct s as [|y s]; intros H.
  - now rewrite H.
  - rewrite (IH H). apply orb_true_r.
Qed.

Lemma LastIndexByte_range (s : string) (c : ascii) :
  -1 <= LastIndexByte s c < len s \/ (s = "" /\ LastIndexByte s c = -1).
Proof.
  unfold len; induction s as [|d s IH]; simpl String.length; cbn [LastIndexByte].
  - now right.
  - left. destruct (LastIndexByte s c =? -1) eqn:E.
    + destruct (Ascii.eqb d c); lia.
    + apply Z.eqb_neq in E. destruct IH as [IH|[-> IH]]; [lia|].
      simpl in E. contradiction.
Qed.

Lemma LastIndexByte_lower (s : string) (c : ascii) : -1 <= LastIndexByte s c.
Proof. destruct (LastIndexByte_range s c) as [H|[_ H]]; lia. Qed.

Lemma LastIndexByte_none (s : string) (c : ascii) :
  LastIndexByte s c = -1 <-> occurs c s = false.
Proof.
  induction s as [|d s IH]; cbn [LastIndexByte occurs]; [tauto|].
  pose proof (LastIndexByte_lower s c) as Hl.
  destruct (LastIndexByte s c =? -1) eqn:E.
  - apply Z.eqb_eq in E. destruct (Ascii.eqb d c); simpl.
    + split; [lia|discriminate].
    + split; intros _; [now apply IH|reflexivity].
  - apply Z.eqb_neq in E. split; [lia|].
    intros H. apply orb_false_iff in H as [_ H]. now apply IH in H.
Qed.

Lemma LastIndexByte_found (s : string) (c : ascii) :
  LastIndexByte s c <> -1 ->
  exists t, slice_from s (LastIndexByte s c) = String c t.
Proof.
  unfold slice_from; induction s as [|d s IH]; cbn [LastIndexByte]; [easy|].
  pose proof (LastIndexByte_lower s c) as Hl.
  destruct (LastIndexByte s c =? -1) eqn:E.
  - destruct (Ascii.eqb d c) eqn:Ec; [|easy].
    apply Ascii.eqb_eq in Ec; subst d. intros _. now exists s.
  - apply Z.eqb_neq in E. intros _. destruct (IH E) as [t Ht].
    exists t. rewrite Z2Nat.inj_add by lia.
    rewrite Nat.add_comm. simpl. exact Ht.
Qed.

Lemma IndexByte_lower (s : string) (c : ascii) : -1 <= IndexByte s c.
Proof.
  induction s as [|d s IH]; cbn [IndexByte]; [lia|].
  destruct (Ascii.eqb d c); [lia|].
  destruct (IndexByte s c =? -1); lia.
Qed.

Lemma LastIndex_lower (s sub : string) : -1 <= LastIndex s sub.
Proof.
  induction s as [|d s IH]; cbn [LastIndex].
  - destruct (HasPrefix "" sub); lia.
  - destruct (LastIndex s sub =? -1); [destruct (HasPrefix _ sub)|]; lia.
Qed.

Lemma LastIndex_found (s sub : string) :
  LastIndex s sub <> -1 ->
  HasPrefix (slice_from s (LastIndex s sub)) sub = true.
Proof.
  unfold slice_from; induction s as [|d s IH]; cbn [LastIndex].
  - destruct (HasPrefix "" sub) eqn:E; [intros _; exact E|easy].
  - pose proof (LastIndex_lower s sub) as Hl.
    destruct (LastIndex s sub =? -1) eqn:E.
    + destruct (HasPrefix (String d s) sub) eqn:Ep; [intros _; exact Ep|easy].
    + apply Z.eqb_neq in E. intros _.
      rewrite Z2Nat.inj_add by lia. rewrite Nat.add_comm. simpl. now apply IH.
Qed.

(** A hit of [LastIndex] cuts the string in three. *)
Lemma LastIndex_split (s sub : string) :
  LastIndex s sub <> -1 ->
  s = slice_to s (LastIndex s sub) ++ sub
      ++ slice_from s (LastIndex s sub + len sub).
Proof.
  intros H. pose proof (LastIndex_lower s sub) as Hl.
  pose proof (LastIndex_found s sub H) as Hp.
  apply HasPrefix_split in Hp. unfold slice_from, slice_to, len in *.
  rewrite Z2Nat.inj_add, Nat2Z.id by lia.
  rewrite <- drop_drop, <- Hp. symmetry; apply take_drop.
Qed.

End StringFacts.

(** ** Facts about [filepath.Clean] *)

Section CleanFacts.

Lemma take_append (a b : string) : take (String.length a) (a ++ b) = a.
Proof. induction a as [|c a IH]; simpl; [reflexivity|now rewrite IH]. Qed.

Lemma Split_no_sep (s : string) (sep : ascii) :
  Forall (fun e => occurs sep e = false) (Split s sep).
Proof.
  induction s as [|c s IH]; cbn [Split].
  - now constructor.
  - destruct (Ascii.eqb c sep) eqn:E; [now constructor|].
    destruct (Split s sep) as [|x xs]; constructor; simpl; rewrite ?E; auto.
    + now inversion IH.
    + now inversion IH.
Qed.

Lemma clean_step_elements (rooted : bool) (out : list string) (elem : string) :
  Forall element out -> occurs Filepath.PathSeparator elem = false ->
  Forall element (Filepath.clean_step rooted out elem).
Proof.
  intros Hout Helem. unfold Filepath.clean_step.
  destruct (String.eqb elem "") eqn:E0; [exact Hout|].
  destruct (String.eqb elem ".") eqn:E1; [exact Hout|].
  destruct (String.eqb elem "..") eqn:E2.
  - destruct out as [|top rest].
    + destruct rooted; repeat constructor; easy.
    + destruct (String.eqb top "..").
      * constructor; [split; easy|exact Hout].
      * now inversion Hout.
  - constructor; [|exact Hout]. split.
    + now apply String.eqb_neq in E0.
    + destruct (ends_with Filepath.PathSeparator elem) eqn:E; [|reflexivity].
      apply ends_with_occurs in E. congruence.
Qed.

Lemma clean_fold_elements (rooted : bool) (l out : list string) :
  Forall element out ->
  Forall (fun e => occurs Filepath.PathSeparator e = false) l ->
  Forall element (fold_left (Filepath.clean_step rooted) l out).
Proof.
  revert out; induction l as [|e l IH]; intros out Hout Hl; simpl; [exact Hout|].
  inversion Hl; subst. apply IH; [|assumption].
  now apply clean_step_elements.
Qed.

Lemma Join_elements (l : list string) :
  Forall element l -> l <> [] -> element (Strings.Join l Filepath.Separator).
Proof.
  induction l as [|x l IH]; intros Hl Hne; [contradiction|].
  inversion Hl as [|? ? [Hx Hxe] Hl']; subst.
  destruct l as [|y l]; [split; assumption|].
  assert (Hj : element (Strings.Join (y :: l) Filepath.Separator))
    by (apply IH; [assumption|discriminate]).
  destruct Hj as [Hj Hje].
  change (Strings.Join (x :: y :: l) Filepath.Separator)
    with (x ++ Filepath.Separator ++ Strings.Join (y :: l) Filepath.Separator).
  split.
  - destruct x; [contradiction|discriminate].
  - rewrite ends_with_append by discriminate.
    rewrite (ends_with_append _ Filepath.Separator) by assumption.
    exact Hje.
Qed.

Lemma element_tidy (d : string) : element d -> tidy d.
Proof. intros [H1 H2]; split; [exact H1|congruence]. Qed.

Theorem Clean_tidy (path : string) : tidy (Filepath.Clean path).
Proof.
  unfold Filepath.Clean.
  destruct (String.eqb path ""); [split; [discriminate|discriminate]|].
  set (rooted := HasPrefix path Filepath.Separator).
  set (out := rev (fold_left (Filepath.clean_step rooted)
                             (Split path Filepath.PathSeparator) [])).
  assert (Hout : Forall element out).
  { apply Forall_rev, clean_fold_elements; [constructor|apply Split_no_sep]. }
  destruct rooted.
  - destruct out as [|x out']; [split; [discriminate|reflexivity]|].
    destruct (Join_elements (x :: out') Hout) as [Hj Hje]; [discriminate|].
    split; [discriminate|].
    rewrite (ends_with_append _ Filepath.Separator) by assumption. congruence.
  - destruct out as [|x out']; [split; discriminate|].
    apply element_tidy, Join_elements; [assumption|discriminate].
Qed.

Lemma Dir_tidy (path : string) : tidy (Filepath.Dir path).
Proof. apply Clean_tidy. Qed.

Lemma Join_nonempty (e : string) (rest : list string) :
  e <> "" -> Filepath.Join (e :: rest) <> "".
Proof.
  intros He. cbn [Filepath.Join].
  apply String.eqb_neq in He. rewrite He. apply Clean_tidy.
Qed.

(** A tidy path that begins with a prefix of two bytes or more ending in a
    separator goes on after it, and so does one that ends in a marker hit. *)
Lemma tidy_beyond_prefix (d p : string) :
  tidy d -> ends_with Filepath.PathSeparator p = true ->
  (2 <= String.length p)%nat -> HasPrefix d p = true ->
  slice_from d (len p) <> "".
Proof.
  intros [_ Ht] Hp Hlen Hpre E.
  apply HasPrefix_split in Hpre. unfold slice_from, len in E.
  rewrite Nat2Z.id in E. rewrite E, append_nil_r in Hpre. subst d.
  specialize (Ht Hp). rewrite Ht in Hlen. simpl in Hlen. lia.
Qed.

Lemma tidy_beyond_marker (d m : string) :
  tidy d -> ends_with Filepath.PathSeparator m = true ->
  (2 <= String.length m)%nat -> LastIndex d m <> -1 ->
  slice_from d (LastIndex d m + len m) <> "".
Proof.
  intros [_ Ht] Hm Hlen Hi E.
  pose proof (LastIndex_split d m Hi) as Hs. rewrite E, append_nil_r in Hs.
  assert (Hne : m <> "") by (destruct m; [discriminate|discriminate]).
  assert (He : ends_with Filepath.PathSeparator d = true).
  { rewrite Hs, ends_with_append by assumption. exact Hm. }
  specialize (Ht He).
  assert (Hl : String.length d = 1%nat) by now rewrite Ht.
  rewrite Hs, length_append in Hl. lia.
Qed.

End CleanFacts.

(** ** Module-path reconstruction *)

Section Pathtomodule.

Lemma LastIndexByte_append (m r : string) (c : ascii) :
  occurs c r = false -> LastIndexByte (m ++ String c r) c = len m.
Proof.
  intros Hr. apply LastIndexByte_none in Hr.
  unfold len; induction m as [|d m IH]; cbn [append LastIndexByte].
  - now rewrite Hr, Ascii.eqb_refl.
  - rewrite IH. destruct (Z.eqb_spec (Z.of_nat (String.length m)) (-1)); [lia|].
    simpl String.length. lia.
Qed.

Lemma IndexByte_append (v t : string) (c : ascii) :
  occurs c v = false -> IndexByte (v ++ String c t) c = len v.
Proof.
  unfold len; induction v as [|d v IH]; cbn [append IndexByte occurs]; intros Hv.
  - now rewrite Ascii.eqb_refl.
  - apply orb_false_iff in Hv as [Hd Hv]. rewrite Hd, (IH Hv).
    destruct (Z.eqb_spec (Z.of_nat (String.length v)) (-1)); [lia|].
    simpl String.length. lia.
Qed.

Lemma pathtomodule_no_at (dir : string) :
  occurs "@" dir = false -> pathtomodule dir = dir.
Proof.
  intros H. apply LastIndexByte_none in H.
  unfold pathtomodule. now rewrite H.
Qed.

(** [<module>@<version>/<tail>] becomes [<module>/<tail>@<version>]. *)
Lemma pathtomodule_moves_version (m v t : string) :
  occurs "@" v = false -> occurs "@" t = false ->
  occurs Filepath.PathSeparator v = false ->
  pathtomodule (m ++ "@" ++ v ++ Filepath.Separator ++ t)
  = Filepath.Join [m; Filepath.Separator ++ t] ++ "@" ++ v.
Proof.
  intros Hv Ht Hs. unfold pathtomodule.
  assert (Hr : occurs "@" (v ++ Filepath.Separator ++ t) = false).
  { clear Hs. induction v as [|d v IH]; simpl in *; [exact Ht|].
    apply orb_false_iff in Hv as [-> Hv]. now apply IH. }
  change (m ++ "@" ++ v ++ Filepath.Separator ++ t)
    with (m ++ String "@" (v ++ Filepath.Separator ++ t)).
  rewrite (LastIndexByte_append m _ "@" Hr).
  unfold slice_from, slice_to, len. rewrite Nat2Z.id.
  destruct (Z.eqb_spec (Z.of_nat (String.length m)) (-1)); [lia|].
  rewrite drop_append, take_append.
  change (String "@" (v ++ Filepath.Separator ++ t))
    with (String "@" v ++ String Filepath.PathSeparator t).
  rewrite IndexByte_append by (simpl; now rewrite Hs).
  unfold len. rewrite Nat2Z.id.
  destruct (Z.eqb_spec (Z.of_nat (String.length (String "@" v))) (-1)); [lia|].
  now rewrite drop_append, take_append.
Qed.

Lemma pathtomodule_nonempty (dir : string) :
  dir <> "" -> pathtomodule dir <> "".
Proof.
  intros Hd. unfold pathtomodule.
  destruct (Z.eqb_spec (LastIndexByte dir "@") (-1)) as [|Hat]; [exact Hd|].
  destruct (LastIndexByte_found dir "@" Hat) as [t Ht]. rewrite Ht.
  pose proof (IndexByte_lower (String "@" t) Filepath.PathSeparator) as Hl.
  destruct (Z.eqb_spec (IndexByte (String "@" t) Filepath.PathSeparator) (-1))
    as [|Hsep]; [exact Hd|].
  apply append_nonempty_r.
  cbn [IndexByte] in *. change (Ascii.eqb "@" Filepath.PathSeparator) with false in *.
  cbv iota in *. pose proof (IndexByte_lower t Filepath.PathSeparator) as Hl'.
  destruct (Z.eqb_spec (IndexByte t Filepath.PathSeparator) (-1)); [contradiction|].
  unfold slice_to. rewrite Z2Nat.inj_add by lia.
  rewrite Nat.add_comm. discriminate.
Qed.

(** C1.  [pathtomodule] turns [fred@v1.2.3/cmd/program] into
    [fred/cmd/program@v1.2.3]: the version suffix between the last [@] and
    the path separator after it moves to the end of the path; a directory
    without any [@] is returned unchanged. *)
Theorem pathtomodule_reconstruction :
  pathtomodule "fred@v1.2.3/cmd/program" = "fred/cmd/program@v1.2.3"
  /\ (forall m v t,
        occurs "@" v = false -> occurs "@" t = false ->
        occurs Filepath.PathSeparator v = false ->
        pathtomodule (m ++ "@" ++ v ++ Filepath.Separator ++ t)
        = Filepath.Join [m; Filepath.Separator ++ t] ++ "@" ++ v)
  /\ (forall dir, occurs "@" dir = false -> pathtomodule dir = dir).
Proof.
  split; [reflexivity|]. split.
  - apply pathtomodule_moves_version.
  - apply pathtomodule_no_at.
Qed.

Lemma pathtomodule_reconstruction_witness :
  (occurs "@" "v1.0.0" = false /\ occurs "@" "cmd/bar" = false
   /\ occurs Filepath.PathSeparator "v1.0.0" = false
   /\ pathtomodule "example.com/foo@v1.0.0/cmd/bar" = "example.com/foo/cmd/bar@v1.0.0")
  /\ (occurs "@" "example.com/foo/cmd" = false
      /\ pathtomodule "example.com/foo/cmd" = "example.com/foo/cmd").
Proof.
  destruct pathtomodule_reconstruction as [_ [Hmove Hsame]].
  split.
  - split; [reflexivity|]. split; [reflexivity|]. split; [reflexivity|].
    exact (Hmove "example.com/foo" "v1.0.0" "cmd/bar" eq_refl eq_refl eq_refl).
  - split; [reflexivity|]. exact (Hsame "example.com/foo/cmd" eq_refl).
Defined.

End Pathtomodule.

(** ** The disambiguation of [guesspkg] *)

Section GuessFacts.

Variable order : MapOrder.

Lemma guess_dirs_unique (s : string) (dirs : list string) (pkg : string) :
  guess_dirs s dirs pkg true =
  match filter (counts s) dirs with
  | [] => (pkg, true, false)
  | d :: _ => (proposal d, false, true)
  end.
Proof.
  induction dirs as [|dir rest IH]; cbn [guess_dirs filter]; [reflexivity|].
  unfold counts at 1.
  destruct (Contains dir s); simpl; [|exact IH].
  destruct (LastIndex dir src =? -1); simpl; [exact IH|reflexivity].
Qed.

Lemma guess_dirs_pass (s : string) (dirs : list string) (pkg : string) :
  guess_dirs s dirs pkg false = pass_result pkg (filter (counts s) dirs).
Proof.
  induction dirs as [|dir rest IH]; cbn [guess_dirs filter]; [reflexivity|].
  unfold counts at 1.
  destruct (Contains dir s); simpl; [|exact IH].
  destruct (LastIndex dir src =? -1); simpl; [exact IH|].
  fold (proposal dir). rewrite guess_dirs_unique.
  now destruct (filter (counts s) rest).
Qed.

(** [guesspkg] in terms of the two passes. *)
Lemma guesspkg_passes (name : string) (dirs : list string) :
  guesspkg order name dirs =
  let s1 := "cmd" ++ Filepath.Separator ++ name in
  match filter (counts s1) (range_keys order s1 dirs) with
  | [] => match filter (counts name) (range_keys order name dirs) with
          | [] => ("", false)
          | [d] => (proposal d, true)
          | _ :: d2 :: _ => (proposal d2, false)
          end
  | [d] => (proposal d, true)
  | _ :: d2 :: _ => (proposal d2, false)
  end.
Proof.
  unfold guesspkg, Filepath.ToSlash. cbn [guess_strings].
  rewrite guess_dirs_pass.
  destruct (filter _ (range_keys order _ dirs)) as [|d1 [|d2 l]]; cbn [pass_result];
    try reflexivity.
  rewrite guess_dirs_pass.
  now destruct (filter _ (range_keys order name dirs)) as [|e1 [|e2 l]].
Qed.

Lemma Permutation_filter {A : Type} (f : A -> bool) (l l' : list A) :
  Permutation l l' -> Permutation (filter f l) (filter f l').
Proof.
  induction 1 as [|x l l' _ IH|x y l|l l' l'' _ IH1 _ IH2]; simpl.
  - constructor.
  - destruct (f x); [now constructor|exact IH].
  - destruct (f x), (f y); try reflexivity. constructor.
  - now transitivity (filter f l').
Qed.

(** The directories that count, as the pass for [s] meets them. *)
Lemma hits_permutation (s : string) (dirs : list string) :
  is_order order ->
  Permutation (filter (counts s) dirs)
              (filter (counts s) (range_keys order s dirs)).
Proof. intros [Hk _]. apply Permutation_filter, Hk. Qed.

(** A directory that counts for [cmd/<name>] counts for [<name>]. *)
Lemma Index_tail (s sub : string) (c : ascii) :
  0 <= Index s sub -> 0 <= Index (String c s) sub.
Proof.
  intros H. cbn [Index]. destruct (HasPrefix (String c s) sub); [lia|].
  destruct (Z.eqb_spec (Index s sub) (-1)); lia.
Qed.

Lemma Index_found (s sub : string) :
  0 <= Index s sub -> exists a b, s = a ++ sub ++ b.
Proof.
  induction s as [|c s IH]; cbn [Index].
  - destruct (HasPrefix "" sub) eqn:E; [|lia]. intros _.
    apply HasPrefix_split in E. now exists "", (drop (String.length sub) "").
  - destruct (HasPrefix (String c s) sub) eqn:E.
    + intros _. apply HasPrefix_split in E.
      now exists "", (drop (String.length sub) (String c s)).
    + destruct (Z.eqb_spec (Index s sub) (-1)) as [|Hn]; [lia|]. intros H.
      destruct IH as [a [b Hab]]; [lia|]. exists (String c a), b.
      simpl. now rewrite <- Hab.
Qed.

Lemma Index_infix (a sub b : string) : 0 <= Index (a ++ sub ++ b) sub.
Proof.
  induction a as [|c a IH].
  - simpl append. destruct (sub ++ b) eqn:E.
    + destruct sub; [reflexivity|discriminate].
    + rewrite <- E. cbn [Index].
      assert (H : HasPrefix (sub ++ b) sub = true) by apply HasPrefix_append.
      rewrite E in *.
      destruct s; cbn [Index]; rewrite H; lia.
  - simpl append. now apply Index_tail.
Qed.

Lemma Contains_iff (s sub : string) :
  Contains s sub = true <-> exists a b, s = a ++ sub ++ b.
Proof.
  unfold Contains. rewrite Z.geb_le. split.
  - apply Index_found.
  - intros [a [b ->]]. apply Index_infix.
Qed.

Lemma Contains_longer (s x sub : string) :
  Contains s (x ++ sub) = true -> Contains s sub = true.
Proof.
  rewrite !Contains_iff. intros [a [b ->]].
  exists (a ++ x), b. now rewrite !append_assoc.
Qed.

End GuessFacts.

(** ** The candidate directories of the fallback scan *)

Section ScanFacts.

Variable env : Env.

Lemma existsb_eqb_In (k : string) (m : list string) :
  existsb (String.eqb k) m = true <-> In k m.
Proof.
  rewrite existsb_exists. split.
  - intros [x [Hx E]]. apply String.eqb_eq in E. now subst.
  - intros H. exists k. split; [exact H|apply String.eqb_refl].
Qed.

Lemma map_insert_In (k x : string) (m : list string) :
  In x (map_insert k m) <-> x = k \/ In x m.
Proof.
  unfold map_insert. destruct (existsb (String.eqb k) m) eqn:E.
  - apply existsb_eqb_In in E. split; [auto|]. now intros [->|H].
  - rewrite in_app_iff. simpl. intuition congruence.
Qed.

Lemma map_insert_NoDup (k : string) (m : list string) :
  NoDup m -> NoDup (map_insert k m).
Proof.
  intros Hm. unfold map_insert. destruct (existsb (String.eqb k) m) eqn:E.
  - exact Hm.
  - apply NoDup_app; [exact Hm|repeat constructor; easy|].
    intros x Hx [<-|[]]. apply existsb_eqb_In in Hx. congruence.
Qed.

(** [isfiltered] does not depend on the order of its loop. *)
Lemma isfiltered_iff (order : MapOrder) (file : string) :
  is_order order ->
  isfiltered env order file = true <->
  exists frag, In frag (filtered env) /\ Contains file frag = true.
Proof.
  intros [Hk _]. unfold isfiltered. rewrite existsb_exists.
  split; intros [frag [Hin Hc]]; exists frag; split; try assumption.
  - eapply Permutation_in; [symmetry; apply Hk|exact Hin].
  - eapply Permutation_in; [apply Hk|exact Hin].
Qed.

Lemma isfiltered_false (order : MapOrder) (file : string) :
  is_order order ->
  isfiltered env order file = false <->
  forall frag, In frag (filtered env) -> Contains file frag = false.
Proof.
  intros Ho. split.
  - intros H frag Hin. destruct (Contains file frag) eqn:E; [|reflexivity].
    assert (isfiltered env order file = true)
      by (apply isfiltered_iff; eauto). congruence.
  - intros H. destruct (isfiltered env order file) eqn:E; [|reflexivity].
    apply isfiltered_iff in E as [frag [Hin Hc]]; [|exact Ho].
    rewrite (H frag Hin) in Hc. discriminate.
Qed.

Lemma scan_funcs_In (order : MapOrder) (file : string) (funcs : list Func)
  (dirs : list string) (d : string) :
  is_order order ->
  In d (scan_funcs env order file dirs funcs) <->
  In d dirs \/
  exists f, In f funcs /\ contributes env file f /\ d = Filepath.Dir file.
Proof.
  intros Ho. unfold scan_funcs.
  revert dirs; induction funcs as [|f funcs IH]; intros dirs; cbn [fold_left].
  - split; [auto|]. now intros [H|[f [[] _]]].
  - rewrite IH. clear IH.
    destruct (String.eqb (Name f) "main.main") eqn:En; cbn [andb].
    + apply String.eqb_eq in En.
      destruct (isfiltered env order file) eqn:Ef; cbn [negb].
      * split; [intros [H|[g [Hg Hc]]]; eauto 6 using in_cons|].
        intros [H|[g [[<-|Hg] [Hc Hd]]]]; eauto 6.
        destruct Hc as [_ Hc].
        pose proof (proj2 (isfiltered_false order file Ho) Hc). congruence.
      * rewrite map_insert_In.
        pose proof (proj1 (isfiltered_false order file Ho) Ef) as Hfrag.
        split.
        -- intros [[->|H]|[g [Hg Hc]]]; eauto 6 using in_cons.
           right. exists f. repeat split; simpl; auto.
        -- intros [H|[g [[<-|Hg] [Hc Hd]]]]; eauto 6.
    + apply String.eqb_neq in En.
      split; [intros [H|[g [Hg Hc]]]; eauto 6 using in_cons|].
      intros [H|[g [[<-|Hg] [Hc Hd]]]]; eauto 6.
      destruct Hc as [Hc _]. contradiction.
Qed.

Lemma scan_funcs_NoDup (order : MapOrder) (file : string) (funcs : list Func)
  (dirs : list string) :
  NoDup dirs -> NoDup (scan_funcs env order file dirs funcs).
Proof.
  unfold scan_funcs.
  revert dirs; induction funcs as [|f funcs IH]; intros dirs Hd; cbn [fold_left];
    [exact Hd|].
  apply IH. destruct (_ && _); [now apply map_insert_NoDup|exact Hd].
Qed.

Lemma scan_files_In (order : MapOrder) (files : list (string * Obj))
  (dirs : list string) (d : string) :
  is_order order ->
  In d (scan_files env order files dirs) <->
  In d dirs \/
  exists file obj f, In (file, obj) files /\ In f (Funcs obj)
                     /\ contributes env file f /\ d = Filepath.Dir file.
Proof.
  intros Ho. unfold scan_files.
  revert dirs; induction files as [|[file obj] files IH]; intros dirs;
    cbn [fold_left fst snd].
  - split; [auto|]. now intros [H|[file [obj [f [[] _]]]]].
  - rewrite IH, (scan_funcs_In order file (Funcs obj) dirs d Ho). clear IH.
    split.
    + intros [[H|[f [Hf [Hc Hd]]]]|[file' [obj' [f [Hin H]]]]]; auto.
      * right. exists file, obj, f. simpl; auto.
      * right. exists file', obj', f. simpl; auto.
    + intros [H|[file' [obj' [f [[E|Hin] [Hf [Hc Hd]]]]]]]; auto.
      * inversion E; subst. left. right. eauto.
      * right. exists file', obj', f. auto.
Qed.

Lemma scan_files_NoDup (order : MapOrder) (files : list (string * Obj))
  (dirs : list string) :
  NoDup dirs -> NoDup (scan_files env order files dirs).
Proof.
  unfold scan_files.
  revert dirs; induction files as [|fo files IH]; intros dirs Hd; cbn [fold_left];
    [exact Hd|].
  apply IH. now apply scan_funcs_NoDup.
Qed.

End ScanFacts.

(** ** [Exec.Import] *)

Section ImportFacts.

Lemma insertion_order_is_order : is_order insertion_order.
Proof. split; intros; reflexivity. Qed.

Lemma reverse_order_is_order : is_order reverse_order.
Proof. split; intros; apply Permutation_rev. Qed.

Lemma env_of_symlinks_clean (goroot gopath : string) :
  symlinks_clean (env_of goroot gopath).
Proof. intros p q H. discriminate. Qed.

Lemma LookupFunc_None (t : Table) (name : string) :
  (forall f, In f (TFuncs t) -> Name f <> name) -> LookupFunc t name = None.
Proof.
  unfold LookupFunc. induction (TFuncs t) as [|f l IH]; intros H; simpl.
  - reflexivity.
  - destruct (String.eqb_spec (Name f) name) as [E|_].
    + now apply H in E; [|left].
    + apply IH. intros g Hg. apply H. now right.
Qed.

(** C4.  When the symbol table has no function named [main.main], [Import]
    fails at once with the resolution-failure error: the candidate set is
    still empty when it returns, and neither the files of the table nor any
    directory is looked at. *)
Theorem Import_without_main (env : Env) (order : MapOrder) (ex : Exec) :
  (forall f, In f (TFuncs (table ex)) -> Name f <> "main.main") ->
  Import_st env order ex = ([], ("", Some ErrGuessFail)).
Proof.
  intros H. unfold Import_st. now rewrite (LookupFunc_None _ _ H).
Qed.

Lemma Import_without_main_witness :
  Import_st (env_of "/usr/lib/go" "/w") insertion_order
            (exec_of "/usr/local/bin/prog" PlatformLinuxAMD64 table_without_main)
  = ([], ("", Some ErrGuessFail)).
Proof.
  apply Import_without_main. intros f [<-|[]]. discriminate.
Defined.

Lemma scan_funcs_skip (env : Env) (order : MapOrder) (file : string)
  (f : Func) (dirs : list string) :
  is_order order ->
  Name f <> "main.main" \/
  (exists frag, In frag (filtered env) /\ Contains file frag = true) ->
  scan_funcs env order file dirs [f] = dirs.
Proof.
  intros Ho H. unfold scan_funcs. cbn [fold_left].
  destruct H as [H|H].
  - apply String.eqb_neq in H. now rewrite H.
  - apply (isfiltered_iff env order file Ho) in H. rewrite H.
    now rewrite andb_false_r.
Qed.

(** C7.  In the fallback scan a (file, function) pair whose file contains a
    filtered fragment, or whose function is not [main.main], leaves the
    candidate set as it is; the candidates are exactly the directories of the
    files that have a function named [main.main] and contain no filtered
    fragment. *)
Theorem fallback_candidates_filtered (env : Env) (order : MapOrder) (ex : Exec) :
  is_order order ->
  (forall file f dirs frag,
      In frag (filtered env) -> Contains file frag = true ->
      scan_funcs env order file dirs [f] = dirs)
  /\ (forall file f dirs,
        Name f <> "main.main" -> scan_funcs env order file dirs [f] = dirs)
  /\ (forall d,
        In d (scan_files env order (range_files order (Files (table ex))) [])
        <-> exists file obj f,
            In (file, obj) (Files (table ex)) /\ In f (Funcs obj)
            /\ contributes env file f /\ d = Filepath.Dir file)
  /\ (forall d,
        In d (fst (Import_st env order ex)) ->
        exists file obj f,
          In (file, obj) (Files (table ex)) /\ In f (Funcs obj)
          /\ contributes env file f /\ d = Filepath.Dir file).
Proof.
  intros Ho.
  assert (Hscan : forall d,
        In d (scan_files env order (range_files order (Files (table ex))) [])
        <-> exists file obj f,
            In (file, obj) (Files (table ex)) /\ In f (Funcs obj)
            /\ contributes env file f /\ d = Filepath.Dir file).
  { intros d. rewrite (scan_files_In env order _ [] d Ho).
    destruct Ho as [_ Hf]. split.
    - intros [[]|[file [obj [f [Hin H]]]]]. exists file, obj, f.
      split; [|exact H]. eapply Permutation_in; [symmetry; apply Hf|exact Hin].
    - intros [file [obj [f [Hin H]]]]. right. exists file, obj, f.
      split; [|exact H]. eapply Permutation_in; [apply Hf|exact Hin]. }
  repeat split.
  - intros file f dirs frag Hin Hc. apply scan_funcs_skip; eauto.
  - intros file f dirs Hn. apply scan_funcs_skip; auto.
  - apply Hscan.
  - apply Hscan.
  - intros d. unfold Import_st.
    destruct (LookupFunc (table ex) "main.main") as [mainfn|]; [|intros []].
    destruct (PCToLine (table ex) (Entry mainfn)) as [[file line] [fn|]];
      [intros []|].
    destruct (guesspkg order (searchname ex) _) as [pkg unique].
    destruct (unique && negb (String.eqb pkg "")); cbn [fst]; apply Hscan.
Qed.

Lemma fallback_candidates_filtered_witness :
  In "/usr/lib/go" (filtered (env_of "/usr/lib/go" "/w"))
  /\ Contains "/usr/lib/go/src/runtime/proc.go" "/usr/lib/go" = true
  /\ scan_funcs (env_of "/usr/lib/go" "/w") reverse_order
       "/usr/lib/go/src/runtime/proc.go" ["/w/src/x/prog"] [main_main]
     = ["/w/src/x/prog"].
Proof.
  assert (Hin : In "/usr/lib/go" (filtered (env_of "/usr/lib/go" "/w")))
    by (vm_compute; tauto).
  split; [exact Hin|]. split; [reflexivity|].
  exact (proj1 (fallback_candidates_filtered (env_of "/usr/lib/go" "/w")
                  reverse_order
                  (exec_of "/usr/local/bin/prog" PlatformLinuxAMD64 (table_of []))
                  reverse_order_is_order)
               "/usr/lib/go/src/runtime/proc.go" main_main ["/w/src/x/prog"]
               "/usr/lib/go" Hin eq_refl).
Defined.

End ImportFacts.

(** ** The search name *)

Section SearchName.

Lemma HasSuffix_append (stem suffix : string) :
  HasSuffix (stem ++ suffix) suffix = true.
Proof.
  unfold HasSuffix, slice_from, len. rewrite length_append.
  apply andb_true_iff. split; [apply Z.leb_le; lia|].
  replace (Z.to_nat _) with (String.length stem) by lia.
  rewrite drop_append. apply String.eqb_refl.
Qed.

Lemma TrimSuffix_append (stem suffix : string) :
  TrimSuffix (stem ++ suffix) suffix = stem.
Proof.
  unfold TrimSuffix. rewrite HasSuffix_append.
  unfold slice_to, len. rewrite length_append.
  replace (Z.to_nat _) with (String.length stem) by lia.
  apply take_append.
Qed.

Lemma TrimSuffix_other (name suffix : string) :
  HasSuffix name suffix = false -> TrimSuffix name suffix = name.
Proof. intros H. unfold TrimSuffix. now rewrite H. Qed.

Lemma Import_by_searchname (env : Env) (order : MapOrder) (ex ex' : Exec) :
  searchname ex' = searchname ex -> table ex' = table ex ->
  Import env order ex' = Import env order ex.
Proof.
  intros Hn Ht. unfold Import, Import_st. now rewrite Hn, Ht.
Qed.

(** C10.  For the two Windows platform variables the search name is the base
    name of the executable without a trailing [.exe]; for every other platform
    it is the base name as it is, so that [prog.exe] built for Linux is looked
    for as [prog.exe].  [Import] uses the path and the platform of the
    executable through this name only. *)
Theorem searchname_windows (ex : Exec) :
  (Type_ ex = PlatformWindows386 \/ Type_ ex = PlatformWindowsAMD64 ->
   searchname ex = TrimSuffix (Filepath.Base (Path ex)) ".exe"
   /\ (forall stem, Filepath.Base (Path ex) = stem ++ ".exe" ->
                    searchname ex = stem)
   /\ (HasSuffix (Filepath.Base (Path ex)) ".exe" = false ->
       searchname ex = Filepath.Base (Path ex)))
  /\ (Type_ ex <> PlatformWindows386 -> Type_ ex <> PlatformWindowsAMD64 ->
      searchname ex = Filepath.Base (Path ex))
  /\ (forall env order ex',
        searchname ex' = searchname ex -> table ex' = table ex ->
        Import env order ex' = Import env order ex)
  /\ searchname (exec_of "/bin/prog.exe" PlatformWindowsAMD64 (table ex)) = "prog"
  /\ searchname (exec_of "/bin/prog.exe" PlatformLinuxAMD64 (table ex)) = "prog.exe".
Proof.
  split; [|split; [|split; [|split; reflexivity]]].
  - intros Hw.
    assert (E : searchname ex = TrimSuffix (Filepath.Base (Path ex)) ".exe").
    { unfold searchname. destruct Hw as [-> | ->]; reflexivity. }
    split; [exact E|]. split.
    + intros stem Hs. rewrite E, Hs. apply TrimSuffix_append.
    + intros Hs. rewrite E. now apply TrimSuffix_other.
  - intros H1 H2. unfold searchname.
    destruct (Type_ ex); try reflexivity; contradiction.
  - intros env order ex'. apply Import_by_searchname.
Qed.

Lemma searchname_windows_witness :
  searchname (exec_of "C:/tools/prog.exe" PlatformWindows386 (table_of [])) = "prog"
  /\ searchname (exec_of "/opt/tools/prog.exe" PlatformFreeBSDAMD64 (table_of []))
     = "prog.exe".
Proof.
  split.
  - exact (proj1 (proj2 (proj1 (searchname_windows
             (exec_of "C:/tools/prog.exe" PlatformWindows386 (table_of [])))
             (or_introl eq_refl))) "prog" eq_refl).
  - apply (proj1 (proj2 (searchname_windows
             (exec_of "/opt/tools/prog.exe" PlatformFreeBSDAMD64 (table_of []))))).
    + discriminate.
    + discriminate.
Defined.

End SearchName.

(** ** Independence of the iteration order *)

Section Determinism.

Lemma two_hits {A : Type} (d1 d2 : A) (l : list A) :
  d1 <> d2 -> In d1 l -> In d2 l -> exists a b r, l = a :: b :: r.
Proof.
  intros Hne H1 H2. destruct l as [|a [|b r]].
  - destruct H1.
  - destruct H1 as [<-|[]], H2 as [<-|[]]. contradiction.
  - now exists a, b, r.
Qed.

(** The verdict of one pass is the same for every order of the hits. *)
Lemma pass_order (h h' : list string) :
  Permutation h h' ->
  match h, h' with
  | [], [] => True
  | [d], [d'] => d = d'
  | _ :: _ :: _, _ :: _ :: _ => True
  | _, _ => False
  end.
Proof.
  intros Hp. pose proof (Permutation_length Hp) as Hl.
  destruct h as [|a [|b r]], h' as [|a' [|b' r']]; try discriminate; trivial.
  now apply Permutation_length_1.
Qed.

Lemma guesspkg_order (o1 o2 : MapOrder) (name : string) (dirs1 dirs2 : list string) :
  is_order o1 -> is_order o2 -> Permutation dirs1 dirs2 ->
  snd (guesspkg o1 name dirs1) = snd (guesspkg o2 name dirs2)
  /\ (snd (guesspkg o1 name dirs1) = true ->
      fst (guesspkg o1 name dirs1) = fst (guesspkg o2 name dirs2)).
Proof.
  intros H1 H2 Hp. rewrite !guesspkg_passes. cbv zeta.
  assert (Hs : forall s, Permutation (filter (counts s) (range_keys o1 s dirs1))
                                     (filter (counts s) (range_keys o2 s dirs2))).
  { intros s. rewrite <- (hits_permutation o1 s dirs1 H1).
    rewrite <- (hits_permutation o2 s dirs2 H2).
    now apply Permutation_filter. }
  pose proof (pass_order _ _ (Hs ("cmd" ++ Filepath.Separator ++ name))) as P1.
  pose proof (pass_order _ _ (Hs name)) as P2.
  destruct (filter _ (range_keys o1 ("cmd" ++ _) dirs1)) as [|a [|b r]],
           (filter _ (range_keys o2 ("cmd" ++ _) dirs2)) as [|a' [|b' r']];
    try contradiction; cbn [fst snd].
  - destruct (filter _ (range_keys o1 name dirs1)) as [|c [|e t]],
             (filter _ (range_keys o2 name dirs2)) as [|c' [|e' t']];
      try contradiction; cbn [fst snd]; subst; split; try reflexivity;
      discriminate.
  - subst. now split.
  - split; [reflexivity|discriminate].
Qed.

Lemma genpkgpath_order (env : Env) (o1 o2 : MapOrder) (name dir : string) :
  is_order o1 -> is_order o2 ->
  genpkgpath env o1 name dir = genpkgpath env o2 name dir.
Proof.
  intros H1 H2. unfold genpkgpath.
  destruct (check_roots env (canonical env dir) _); [reflexivity|].
  destruct (guesspkg_order o1 o2 name [canonical env dir] [canonical env dir]
              H1 H2 (Permutation_refl _)) as [Hu Hp].
  destruct (guesspkg o1 name _) as [p1 u1], (guesspkg o2 name _) as [p2 u2].
  cbn [fst snd] in *. subst u2. destruct u1; [|reflexivity].
  now rewrite (Hp eq_refl).
Qed.

Lemma isfiltered_order (env : Env) (o1 o2 : MapOrder) (file : string) :
  is_order o1 -> is_order o2 -> isfiltered env o1 file = isfiltered env o2 file.
Proof.
  intros H1 H2. destruct (isfiltered env o2 file) eqn:E.
  - apply isfiltered_iff; [exact H1|]. now apply (isfiltered_iff env o2).
  - apply isfiltered_false; [exact H1|]. now apply (isfiltered_false env o2).
Qed.

Lemma candidates_order (env : Env) (o1 o2 : MapOrder) (files : list (string * Obj)) :
  is_order o1 -> is_order o2 ->
  Permutation (scan_files env o1 (range_files o1 files) [])
              (scan_files env o2 (range_files o2 files) []).
Proof.
  intros H1 H2.
  apply NoDup_Permutation; try (apply scan_files_NoDup; constructor).
  intros d. rewrite (scan_files_In env o1 _ [] d H1).
  rewrite (scan_files_In env o2 _ [] d H2).
  destruct H1 as [_ F1], H2 as [_ F2].
  split; intros [[]|[file [obj [f [Hin H]]]]]; right; exists file, obj, f;
    (split; [|exact H]).
  - eapply Permutation_in; [apply F2|].
    eapply Permutation_in; [symmetry; apply F1|exact Hin].
  - eapply Permutation_in; [apply F1|].
    eapply Permutation_in; [symmetry; apply F2|exact Hin].
Qed.

(** C9.  Whatever order the runtime picks for its loops over the maps (the
    filter set, the files of the table, the candidate set, once per loop),
    [Import] gives the same result on the same executable in the same
    environment: the same path, or the same error. *)
Theorem Import_deterministic (env : Env) (o1 o2 : MapOrder) (ex : Exec) :
  is_order o1 -> is_order o2 -> Import env o1 ex = Import env o2 ex.
Proof.
  intros H1 H2. unfold Import, Import_st.
  destruct (LookupFunc (table ex) "main.main") as [mainfn|]; [|reflexivity].
  destruct (PCToLine (table ex) (Entry mainfn)) as [[file line] [fn|]].
  - cbn [snd]. now apply genpkgpath_order.
  - destruct (guesspkg_order o1 o2 (searchname ex) _ _ H1 H2
                (candidates_order env o1 o2 (Files (table ex)) H1 H2)) as [Hu Hp].
    destruct (guesspkg o1 _ _) as [p1 u1], (guesspkg o2 _ _) as [p2 u2].
    cbn [fst snd] in *. subst u2. destruct u1; cbn [andb]; [|reflexivity].
    rewrite (Hp eq_refl). now destruct (negb (String.eqb p2 "")).
Qed.

Lemma Import_deterministic_witness :
  Import (env_of "/usr/lib/go" "/root") insertion_order
    (exec_of "/usr/local/bin/prog" PlatformLinuxAMD64
       (table_of ["/home/u/src/x/cmd/prog/main.go"; "/home/u/src/y/util/u.go"]))
  = Import (env_of "/usr/lib/go" "/root") reverse_order
      (exec_of "/usr/local/bin/prog" PlatformLinuxAMD64
         (table_of ["/home/u/src/x/cmd/prog/main.go"; "/home/u/src/y/util/u.go"])).
Proof.
  apply Import_deterministic.
  - exact insertion_order_is_order.
  - exact reverse_order_is_order.
Defined.

End Determinism.

(** ** Ambiguity *)

Section Ambiguity.

Variable order : MapOrder.
Hypothesis order_ok : is_order order.

Lemma hits_nonempty (s : string) (dirs : list string) (d : string) :
  In d dirs -> counts s d = true ->
  filter (counts s) (range_keys order s dirs) <> [].
Proof.
  intros Hin Hc E.
  assert (H : In d (filter (counts s) (range_keys order s dirs))).
  { apply filter_In. split; [|exact Hc].
    eapply Permutation_in; [apply order_ok|exact Hin]. }
  rewrite E in H. destruct H.
Qed.

Lemma hits_empty (s : string) (dirs : list string) :
  (forall d, In d dirs -> counts s d = false) ->
  filter (counts s) (range_keys order s dirs) = [].
Proof.
  intros H. destruct (filter _ _) as [|d l] eqn:E; [reflexivity|].
  assert (Hd : In d (filter (counts s) (range_keys order s dirs)))
    by (rewrite E; now left).
  apply filter_In in Hd as [Hin Hc].
  rewrite H in Hc; [discriminate|].
  eapply Permutation_in; [symmetry; apply order_ok|exact Hin].
Qed.

Lemma hits_two (s : string) (dirs : list string) (d1 d2 : string) :
  d1 <> d2 -> In d1 dirs -> In d2 dirs ->
  counts s d1 = true -> counts s d2 = true ->
  exists a b r, filter (counts s) (range_keys order s dirs) = a :: b :: r.
Proof.
  intros Hne H1 H2 C1 C2. apply (two_hits d1 d2); [exact Hne| |];
    apply filter_In; (split; [|assumption]);
    (eapply Permutation_in; [apply order_ok|assumption]).
Qed.

Lemma guesspkg_two_hits (name : string) (dirs : list string) (d1 d2 : string) :
  d1 <> d2 -> In d1 dirs -> In d2 dirs ->
  counts ("cmd" ++ Filepath.Separator ++ name) d1 = true ->
  counts ("cmd" ++ Filepath.Separator ++ name) d2 = true ->
  snd (guesspkg order name dirs) = false.
Proof.
  intros Hne H1 H2 C1 C2. rewrite guesspkg_passes. cbv zeta.
  destruct (hits_two _ dirs d1 d2 Hne H1 H2 C1 C2) as [a [b [r ->]]].
  reflexivity.
Qed.

Lemma guesspkg_first_pass (name : string) (dirs : list string) (d : string) :
  In d dirs -> counts ("cmd" ++ Filepath.Separator ++ name) d = true ->
  guesspkg order name dirs
  = single_pass order ("cmd" ++ Filepath.Separator ++ name) dirs.
Proof.
  intros Hin Hc. rewrite guesspkg_passes. unfold single_pass. cbv zeta.
  rewrite guess_dirs_pass. pose proof (hits_nonempty _ dirs d Hin Hc) as Hne.
  destruct (filter _ _) as [|a [|b r]]; [contradiction|reflexivity|reflexivity].
Qed.

Lemma guesspkg_second_pass (name : string) (dirs : list string) :
  (forall d, In d dirs -> counts ("cmd" ++ Filepath.Separator ++ name) d = false) ->
  guesspkg order name dirs = single_pass order name dirs.
Proof.
  intros H. rewrite guesspkg_passes. unfold single_pass. cbv zeta.
  rewrite (hits_empty _ dirs H), guess_dirs_pass.
  now destruct (filter _ _) as [|a [|b r]].
Qed.

(** C5, as the code has it: a candidate directory matches a search string
    when it contains the string and a [/src/] marker.  With two distinct
    candidates matching [cmd/<name>] the result is not unique, and the
    fallback of [Import] fails.  As soon as one candidate matches
    [cmd/<name>] the result is that of the pass for [cmd/<name>] alone; the
    pass for the bare name decides only when no candidate matches
    [cmd/<name>]. *)
Theorem cmd_pass_decides (name : string) (dirs : list string) :
  (forall d1 d2,
      d1 <> d2 -> In d1 dirs -> In d2 dirs ->
      counts ("cmd" ++ Filepath.Separator ++ name) d1 = true ->
      counts ("cmd" ++ Filepath.Separator ++ name) d2 = true ->
      snd (guesspkg order name dirs) = false
      /\ forall env ex mainfn file line,
           LookupFunc (table ex) "main.main" = Some mainfn ->
           PCToLine (table ex) (Entry mainfn) = (file, line, None) ->
           searchname ex = name ->
           fst (Import_st env order ex) = dirs ->
           Import env order ex = ("", Some ErrGuessFail))
  /\ (forall d,
        In d dirs -> counts ("cmd" ++ Filepath.Separator ++ name) d = true ->
        guesspkg order name dirs
        = single_pass order ("cmd" ++ Filepath.Separator ++ name) dirs)
  /\ ((forall d, In d dirs ->
                 counts ("cmd" ++ Filepath.Separator ++ name) d = false) ->
      guesspkg order name dirs = single_pass order name dirs).
Proof.
  split; [|split].
  - intros d1 d2 Hne H1 H2 C1 C2.
    pose proof (guesspkg_two_hits name dirs d1 d2 Hne H1 H2 C1 C2) as Hu.
    split; [exact Hu|].
    intros env ex mainfn file line Hl Hpc Hn Hd.
    revert Hd. unfold Import, Import_st. rewrite Hl, Hpc, Hn.
    destruct (guesspkg order name (scan_files _ _ _ _)) as [pkg unique] eqn:E.
    assert (Hfst : forall b : bool,
      fst (if b then (scan_files env order (range_files order (Files (table ex))) [],
                      (pkg, @None error))
           else (scan_files env order (range_files order (Files (table ex))) [],
                 ("", Some ErrGuessFail)))
      = scan_files env order (range_files order (Files (table ex))) [])
      by (now intros []).
    rewrite Hfst. intros Hd. rewrite Hd in E. rewrite E in Hu.
    cbn [snd] in Hu. subst unique. reflexivity.
  - apply guesspkg_first_pass.
  - apply guesspkg_second_pass.
Qed.

End Ambiguity.

Lemma cmd_pass_decides_witness :
  snd (guesspkg reverse_order "prog"
         ["/home/u/src/x/cmd/prog"; "/home/v/src/y/cmd/prog"]) = false
  /\ guesspkg reverse_order "prog" ["/home/u/src/x/cmd/prog"; "/opt/build/prog"]
     = ("x/cmd/prog", true)
  /\ guesspkg reverse_order "prog" ["/home/u/src/x/prog"; "/opt/build/cmd/prog"]
     = ("x/prog", true).
Proof.
  split; [|split].
  - apply (proj1 (proj1 (cmd_pass_decides reverse_order reverse_order_is_order
             "prog" ["/home/u/src/x/cmd/prog"; "/home/v/src/y/cmd/prog"])
             "/home/u/src/x/cmd/prog" "/home/v/src/y/cmd/prog"
             ltac:(discriminate) ltac:(simpl; tauto) ltac:(simpl; tauto)
             eq_refl eq_refl)).
  - rewrite (proj1 (proj2 (cmd_pass_decides reverse_order reverse_order_is_order
               "prog" ["/home/u/src/x/cmd/prog"; "/opt/build/prog"]))
               "/home/u/src/x/cmd/prog" ltac:(simpl; tauto) eq_refl).
    reflexivity.
  - rewrite (proj2 (proj2 (cmd_pass_decides reverse_order reverse_order_is_order
               "prog" ["/home/u/src/x/prog"; "/opt/build/cmd/prog"]))).
    + reflexivity.
    + intros d [<-|[<-|[]]]; reflexivity.
Defined.

(** Two distinct candidates contain [cmd/prog], only one of them has a
    [/src/] marker: [Import] answers with that one. *)
Lemma cmd_contains_counterexample :
  fst (Import_st (env_of "/usr/lib/go" "/root") insertion_order
         (exec_of "/usr/local/bin/prog" PlatformLinuxAMD64
            (table_of ["/home/u/src/x/cmd/prog/main.go";
                       "/opt/build/cmd/prog/main.go"])))
  = ["/home/u/src/x/cmd/prog"; "/opt/build/cmd/prog"]
  /\ "/home/u/src/x/cmd/prog" <> "/opt/build/cmd/prog"
  /\ Contains "/home/u/src/x/cmd/prog" "cmd/prog" = true
  /\ Contains "/opt/build/cmd/prog" "cmd/prog" = true
  /\ Import (env_of "/usr/lib/go" "/root") insertion_order
       (exec_of "/usr/local/bin/prog" PlatformLinuxAMD64
          (table_of ["/home/u/src/x/cmd/prog/main.go";
                     "/opt/build/cmd/prog/main.go"]))
     = ("x/cmd/prog", None).
Proof. repeat split; try reflexivity. discriminate. Qed.

(** ** One path or one error *)

Section Exclusive.

Variable env : Env.
Variable order : MapOrder.
Hypothesis order_ok : is_order order.
Hypothesis symlinks_ok : symlinks_clean env.

Lemma canonical_tidy (d : string) : tidy d -> tidy (canonical env d).
Proof.
  intros Hd. unfold canonical. destruct (EvalSymlinks env d) as [q|] eqn:E.
  - rewrite <- (symlinks_ok d q E). apply Clean_tidy.
  - exact Hd.
Qed.

Lemma ends_with_sep (a : string) :
  ends_with Filepath.PathSeparator (a ++ Filepath.Separator) = true.
Proof. rewrite ends_with_append by discriminate. reflexivity. Qed.

Lemma length_with_sep (a : string) :
  a <> "" -> (2 <= String.length (a ++ Filepath.Separator))%nat.
Proof.
  intros Ha. rewrite length_append. destruct a; [contradiction|]. simpl. lia.
Qed.

Lemma check_roots_cons (dir path : string) (rest : list string) :
  check_roots env dir (path :: rest) =
  let pth := canonical env path ++ Filepath.Separator in
  if negb (HasPrefix dir pth) then check_roots env dir rest
  else if HasPrefix dir (pth ++ "src" ++ Filepath.Separator)
       then Some (slice_from dir (len (pth ++ "src" ++ Filepath.Separator)), None)
       else if HasPrefix dir (Filepath.Join [pth; "pkg"; "mod"] ++ Filepath.Separator)
            then Some (pathtomodule
                         (slice_from dir
                            (len (Filepath.Join [pth; "pkg"; "mod"]
                                  ++ Filepath.Separator))), None)
            else check_roots env dir rest.
Proof. reflexivity. Qed.

Lemma check_roots_exclusive (dir : string) (checkpaths : list string)
  (r : string * option error) :
  tidy dir -> check_roots env dir checkpaths = Some r -> exclusive r.
Proof.
  intros Hd. induction checkpaths as [|path rest IH]; [discriminate|].
  rewrite check_roots_cons. cbv zeta.
  set (pth := canonical env path ++ Filepath.Separator).
  set (mpth := Filepath.Join [pth; "pkg"; "mod"] ++ Filepath.Separator).
  destruct (HasPrefix dir pth); unfold negb; [|exact IH].
  destruct (HasPrefix dir (pth ++ "src" ++ Filepath.Separator)) eqn:Es.
  - intros H. assert (E : r = (slice_from dir (len (pth ++ "src" ++ Filepath.Separator)), None))
      by congruence.
    rewrite E. unfold exclusive.
    apply tidy_beyond_prefix; [exact Hd| | |exact Es].
    + rewrite ends_with_append by discriminate. reflexivity.
    + rewrite length_append. simpl. lia.
  - destruct (HasPrefix dir mpth) eqn:Em; [|exact IH].
    intros H. assert (E : r = (pathtomodule (slice_from dir (len mpth)), None))
      by congruence.
    rewrite E. unfold exclusive.
    apply pathtomodule_nonempty.
    apply tidy_beyond_prefix; [exact Hd|apply ends_with_sep| |exact Em].
    apply length_with_sep, Join_nonempty.
    unfold pth. apply append_nonempty_r. discriminate.
Qed.

Lemma range_single (s dir : string) : range_keys order s [dir] = [dir].
Proof.
  destruct order_ok as [Hk _]. specialize (Hk s [dir]).
  now apply Permutation_length_1_inv in Hk.
Qed.

(** [guesspkg] on the one directory that [genpkgpath] gives it. *)
Lemma guesspkg_single (name dir : string) :
  guesspkg order name [dir] =
  if counts ("cmd" ++ Filepath.Separator ++ name) dir || counts name dir
  then (proposal dir, true) else ("", false).
Proof.
  rewrite guesspkg_passes. cbv zeta. rewrite !range_single. cbn [filter].
  destruct (counts ("cmd" ++ _) dir); [reflexivity|].
  now destruct (counts name dir).
Qed.

Lemma proposal_nonempty (s dir : string) :
  tidy dir -> counts s dir = true -> proposal dir <> "".
Proof.
  intros Hd Hc. apply andb_true_iff in Hc as [_ Hc].
  apply negb_true_iff, Z.eqb_neq in Hc.
  apply tidy_beyond_marker; [exact Hd|reflexivity|simpl; lia|exact Hc].
Qed.

Lemma genpkgpath_exclusive (name dir : string) :
  tidy dir -> exclusive (genpkgpath env order name dir).
Proof.
  intros Hd. apply canonical_tidy in Hd. unfold genpkgpath.
  destruct (check_roots env (canonical env dir) _) as [r|] eqn:E.
  - now apply (check_roots_exclusive _ _ _ Hd E).
  - rewrite guesspkg_single.
    destruct (counts ("cmd" ++ _) (canonical env dir)) eqn:C1; cbn [orb].
    + now apply (proposal_nonempty _ _ Hd C1).
    + destruct (counts name (canonical env dir)) eqn:C2.
      * now apply (proposal_nonempty _ _ Hd C2).
      * destruct (Z.eqb_spec (LastIndex (canonical env dir) mod_) (-1)) as [|Hi];
          cbn [negb exclusive]; [reflexivity|].
        apply pathtomodule_nonempty.
        apply tidy_beyond_marker; [exact Hd|reflexivity|simpl; lia|exact Hi].
Qed.

(** C8.  [Import] returns either a path that is not empty and no error, or
    an error and the empty path.  The loops may run in any order;
    [filepath.EvalSymlinks] is taken to return cleaned paths, as it is
    documented to. *)
Theorem Import_exclusive (ex : Exec) : exclusive (Import env order ex).
Proof.
  unfold Import, Import_st.
  destruct (LookupFunc (table ex) "main.main") as [mainfn|]; [|reflexivity].
  destruct (PCToLine (table ex) (Entry mainfn)) as [[file line] [fn|]].
  - cbn [snd]. apply genpkgpath_exclusive, Dir_tidy.
  - destruct (guesspkg order (searchname ex) _) as [pkg unique].
    destruct unique; cbn [andb]; [|reflexivity].
    destruct (String.eqb_spec pkg ""); cbn [negb snd exclusive]; [reflexivity|].
    assumption.
Qed.

End Exclusive.

Lemma Import_exclusive_witness :
  exclusive (Import (env_of "/usr/lib/go" "/root") reverse_order
               (exec_of "/usr/local/bin/bar" PlatformLinuxAMD64
                  (table_at "/root/pkg/mod/example.com/foo@v1.0.0/cmd/bar/main.go")))
  /\ exclusive (Import (env_of "/usr/lib/go" "/root") reverse_order
                  (exec_of "/usr/local/bin/bar" PlatformLinuxAMD64
                     (table_at "/build/bar/main.go"))).
Proof.
  split; apply Import_exclusive;
    first [exact reverse_order_is_order | apply env_of_symlinks_clean].
Defined.

(** ** Path canonicalisation: the loop over the search roots *)

Section Roots.

Variable env : Env.

Lemma HasPrefix_shorter (s a b : string) :
  HasPrefix s (a ++ b) = true -> HasPrefix s a = true.
Proof.
  revert s; induction a as [|c a IH]; intros s H; [now destruct s|].
  destruct s as [|d s]; simpl in *; [discriminate|].
  apply andb_true_iff in H as [-> H]. now apply IH.
Qed.

Lemma check_roots_claimed (dir root : string) (rest : list string) :
  claims_dir (canonical env root) dir = true ->
  check_roots env dir (root :: rest)
  = Some (root_answer (canonical env root) dir, None).
Proof.
  unfold claims_dir, root_answer, src_prefix, mod_prefix.
  intros H. apply andb_true_iff in H as [Hp H].
  rewrite check_roots_cons. cbv zeta. rewrite Hp. unfold negb.
  destruct (HasPrefix dir ((canonical env root ++ Filepath.Separator)
                           ++ "src" ++ Filepath.Separator)); [reflexivity|].
  apply orb_true_iff in H as [H|H]; [discriminate|now rewrite H].
Qed.

Lemma check_roots_unclaimed (dir root : string) (rest : list string) :
  claims_dir (canonical env root) dir = false ->
  check_roots env dir (root :: rest) = check_roots env dir rest.
Proof.
  unfold claims_dir, src_prefix, mod_prefix. intros H.
  rewrite check_roots_cons. cbv zeta.
  destruct (HasPrefix dir (canonical env root ++ Filepath.Separator));
    [|reflexivity].
  unfold negb. rewrite andb_true_l in H.
  apply orb_false_iff in H as [-> ->]. reflexivity.
Qed.

Lemma check_roots_skip (dir : string) (before rest : list string) :
  Forall (fun p => claims_dir (canonical env p) dir = false) before ->
  check_roots env dir (before ++ rest) = check_roots env dir rest.
Proof.
  induction 1 as [|p before Hp _ IH]; [reflexivity|].
  simpl app. now rewrite check_roots_unclaimed.
Qed.

Lemma check_roots_none (dir : string) (roots : list string) :
  Forall (fun p => claims_dir (canonical env p) dir = false) roots ->
  check_roots env dir roots = None.
Proof.
  intros H. rewrite <- (app_nil_r roots). now rewrite check_roots_skip.
Qed.

(** The first root that claims the directory answers. *)
Lemma check_roots_first (dir root : string) (before after : list string) :
  Forall (fun p => claims_dir (canonical env p) dir = false) before ->
  claims_dir (canonical env root) dir = true ->
  check_roots env dir (before ++ root :: after)
  = Some (root_answer (canonical env root) dir, None).
Proof.
  intros Hb Hr. rewrite check_roots_skip by exact Hb.
  now apply check_roots_claimed.
Qed.

(** Roots that are all [root] or no ancestor of the directory. *)
Lemma check_roots_only (dir root : string) (roots : list string) :
  claims_dir root dir = true ->
  (exists p, In p roots /\ canonical env p = root) ->
  (forall p, In p roots ->
     canonical env p = root
     \/ HasPrefix dir (canonical env p ++ Filepath.Separator) = false) ->
  check_roots env dir roots = Some (root_answer root dir, None).
Proof.
  intros Hc. induction roots as [|p rest IH]; intros [q [Hq Eq]] Hall.
  - destruct Hq.
  - destruct (Hall p (or_introl eq_refl)) as [Ep|Hp].
    + rewrite <- Ep in *. now apply check_roots_claimed.
    + rewrite check_roots_unclaimed by (unfold claims_dir; now rewrite Hp).
      apply IH.
      * destruct Hq as [<-|Hq]; [|now exists q].
        rewrite Eq in Hp. unfold claims_dir in Hc.
        rewrite Hp in Hc. discriminate.
      * intros r Hr. apply Hall. now right.
Qed.

Lemma genpkgpath_first (order : MapOrder) (name dir root : string)
  (before after : list string) :
  checkpaths env = (before ++ root :: after)%list ->
  Forall (fun p => claims_dir (canonical env p) (canonical env dir) = false)
         before ->
  claims_dir (canonical env root) (canonical env dir) = true ->
  genpkgpath env order name dir
  = (root_answer (canonical env root) (canonical env dir), None).
Proof.
  intros Hl Hb Hr. unfold genpkgpath. fold (checkpaths env).
  now rewrite Hl, (check_roots_first _ _ _ _ Hb Hr).
Qed.

Lemma genpkgpath_only (order : MapOrder) (name dir root : string) :
  canonical env dir = dir ->
  claims_dir root dir = true ->
  (exists p, In p (checkpaths env) /\ canonical env p = root) ->
  (forall p, In p (checkpaths env) ->
     canonical env p = root
     \/ HasPrefix dir (canonical env p ++ Filepath.Separator) = false) ->
  genpkgpath env order name dir = (root_answer root dir, None).
Proof.
  intros Hd Hc He Hall. unfold genpkgpath. fold (checkpaths env).
  now rewrite Hd, (check_roots_only _ _ _ Hc He Hall).
Qed.

End Roots.

(** C2, as the code has it: the roots are tried in list order and the first
    one that has the (canonicalised) directory below its [src/] or its
    [pkg/mod/] answers.  When that is [<root>/src/], the import path is what
    follows the prefix.  The directory [/root/src/example.com/foo] gives
    [example.com/foo] when [/root] is a search root and no other search root
    is an ancestor of the directory. *)
Theorem genpkgpath_source_build (env : Env) (order : MapOrder) (name : string) :
  (forall dir root before after,
      checkpaths env = (before ++ root :: after)%list ->
      Forall (fun p => claims_dir (canonical env p) (canonical env dir) = false)
             before ->
      HasPrefix (canonical env dir) (src_prefix (canonical env root)) = true ->
      genpkgpath env order name dir
      = (slice_from (canonical env dir) (len (src_prefix (canonical env root))),
         None)
      /\ canonical env dir
         = src_prefix (canonical env root)
           ++ slice_from (canonical env dir)
                (len (src_prefix (canonical env root))))
  /\ (canonical env "/root/src/example.com/foo" = "/root/src/example.com/foo" ->
      (exists p, In p (checkpaths env) /\ canonical env p = "/root") ->
      (forall p, In p (checkpaths env) ->
         canonical env p = "/root"
         \/ HasPrefix "/root/src/example.com/foo"
                      (canonical env p ++ Filepath.Separator) = false) ->
      genpkgpath env order name "/root/src/example.com/foo"
      = ("example.com/foo", None)).
Proof.
  split.
  - intros dir root before after Hl Hb Hs. split.
    + rewrite (genpkgpath_first env order name dir root before after Hl Hb).
      * unfold root_answer. now rewrite Hs.
      * unfold claims_dir. rewrite Hs.
        unfold src_prefix in Hs. apply HasPrefix_shorter in Hs.
        now rewrite Hs.
    + apply HasPrefix_split in Hs. unfold slice_from, len.
      now rewrite Nat2Z.id.
  - intros Hd He Hall.
    now rewrite (genpkgpath_only env order name _ "/root" Hd eq_refl He Hall).
Qed.

Lemma genpkgpath_source_build_witness :
  genpkgpath (env_of "/usr/lib/go" "/srv/go:/root") reverse_order "foo"
             "/root/src/example.com/foo"
  = ("example.com/foo", None)
  /\ genpkgpath (env_of "/usr/lib/go" "/srv/go:/root") reverse_order "foo"
                "/root/src/example.com/foo"
     = (slice_from "/root/src/example.com/foo" (len (src_prefix "/root")), None).
Proof.
  split.
  - apply (proj2 (genpkgpath_source_build (env_of "/usr/lib/go" "/srv/go:/root")
                    reverse_order "foo")).
    + reflexivity.
    + exists "/root". split; [simpl; tauto|reflexivity].
    + intros p [<-|[<-|[<-|[]]]]; auto.
  - apply (proj1 (genpkgpath_source_build (env_of "/usr/lib/go" "/srv/go:/root")
                    reverse_order "foo")
             "/root/src/example.com/foo" "/root" ["/usr/lib/go"; "/srv/go"] []).
    + reflexivity.
    + repeat constructor.
    + reflexivity.
Defined.

(** With the roots [/r] and [/r/pkg/mod] the directory [/r/pkg/mod/src/x]
    lies below [<root>/src/] for the second root, and the answer comes from
    the first. *)
Lemma source_build_counterexample :
  In "/r/pkg/mod" (checkpaths (env_of "/r" "/r/pkg/mod"))
  /\ canonical (env_of "/r" "/r/pkg/mod") "/r/pkg/mod/src/x" = "/r/pkg/mod/src/x"
  /\ HasPrefix "/r/pkg/mod/src/x" (src_prefix "/r/pkg/mod") = true
  /\ slice_from "/r/pkg/mod/src/x" (len (src_prefix "/r/pkg/mod")) = "x"
  /\ (forall root, In root (checkpaths (env_of "/r" "/r/pkg/mod")) ->
        HasPrefix "/r/pkg/mod/src/x" (src_prefix root) = true ->
        root = "/r/pkg/mod")
  /\ genpkgpath (env_of "/r" "/r/pkg/mod") insertion_order "x" "/r/pkg/mod/src/x"
     = ("src/x", None).
Proof.
  repeat split; try reflexivity.
  - simpl; tauto.
  - intros root [<-|[<-|[]]]; [discriminate|reflexivity].
Qed.

(** C3, as the code has it: at the first root in list order that has the
    (canonicalised) directory below its [src/] or its [pkg/mod/], a directory
    that begins with [<root>/], is not below [<root>/src/] and begins with
    [filepath.Join(<root>/, "pkg", "mod")/] gives [pathtomodule] of what
    follows that prefix.  The directory
    [/root/pkg/mod/example.com/foo@v1.0.0/cmd/bar] gives
    [example.com/foo/cmd/bar@v1.0.0] when [/root] is a search root and no
    other search root is an ancestor of the directory. *)
Theorem genpkgpath_module_cache (env : Env) (order : MapOrder) (name : string) :
  (forall dir root before after,
      checkpaths env = (before ++ root :: after)%list ->
      Forall (fun p => claims_dir (canonical env p) (canonical env dir) = false)
             before ->
      HasPrefix (canonical env dir) (canonical env root ++ Filepath.Separator)
      = true ->
      HasPrefix (canonical env dir) (src_prefix (canonical env root)) = false ->
      HasPrefix (canonical env dir) (mod_prefix (canonical env root)) = true ->
      genpkgpath env order name dir
      = (pathtomodule
           (slice_from (canonical env dir)
              (len (mod_prefix (canonical env root)))), None)
      /\ canonical env dir
         = mod_prefix (canonical env root)
           ++ slice_from (canonical env dir)
                (len (mod_prefix (canonical env root))))
  /\ (canonical env "/root/pkg/mod/example.com/foo@v1.0.0/cmd/bar"
      = "/root/pkg/mod/example.com/foo@v1.0.0/cmd/bar" ->
      (exists p, In p (checkpaths env) /\ canonical env p = "/root") ->
      (forall p, In p (checkpaths env) ->
         canonical env p = "/root"
         \/ HasPrefix "/root/pkg/mod/example.com/foo@v1.0.0/cmd/bar"
                      (canonical env p ++ Filepath.Separator) = false) ->
      genpkgpath env order name "/root/pkg/mod/example.com/foo@v1.0.0/cmd/bar"
      = ("example.com/foo/cmd/bar@v1.0.0", None)).
Proof.
  split.
  - intros dir root before after Hl Hb Hp Hs Hm. split.
    + rewrite (genpkgpath_first env order name dir root before after Hl Hb).
      * unfold root_answer. now rewrite Hs.
      * unfold claims_dir. now rewrite Hp, Hs, Hm.
    + apply HasPrefix_split in Hm. unfold slice_from, len.
      now rewrite Nat2Z.id.
  - intros Hd He Hall.
    now rewrite (genpkgpath_only env order name _ "/root" Hd eq_refl He Hall).
Qed.

Lemma genpkgpath_module_cache_witness :
  genpkgpath (env_of "/usr/lib/go" "/srv/go:/root") reverse_order "bar"
             "/root/pkg/mod/example.com/foo@v1.0.0/cmd/bar"
  = ("example.com/foo/cmd/bar@v1.0.0", None)
  /\ genpkgpath (env_of "/usr/lib/go" "/srv/go:/root") reverse_order "foo"
                "/root/pkg/mod/example.com/foo@v1.0.0"
     = (pathtomodule
          (slice_from "/root/pkg/mod/example.com/foo@v1.0.0"
                      (len (mod_prefix "/root"))), None).
Proof.
  split.
  - apply (proj2 (genpkgpath_module_cache (env_of "/usr/lib/go" "/srv/go:/root")
                    reverse_order "bar")).
    + reflexivity.
    + exists "/root". split; [simpl; tauto|reflexivity].
    + intros p [<-|[<-|[<-|[]]]]; auto.
  - apply (proj1 (genpkgpath_module_cache (env_of "/usr/lib/go" "/srv/go:/root")
                    reverse_order "foo")
             "/root/pkg/mod/example.com/foo@v1.0.0" "/root"
             ["/usr/lib/go"; "/srv/go"] []).
    + reflexivity.
    + repeat constructor.
    + reflexivity.
    + reflexivity.
    + reflexivity.
Defined.

(** With the roots [/r/pkg/mod] and [/r] the directory
    [/r/pkg/mod/src/y@v1/z] lies below [<root>/pkg/mod/] for the second root
    only, and the answer comes from the [src/] of the first. *)
Lemma module_cache_counterexample :
  In "/r" (checkpaths (env_of "/r/pkg/mod" "/r"))
  /\ canonical (env_of "/r/pkg/mod" "/r") "/r/pkg/mod/src/y@v1/z"
     = "/r/pkg/mod/src/y@v1/z"
  /\ HasPrefix "/r/pkg/mod/src/y@v1/z" (mod_prefix "/r") = true
  /\ pathtomodule (slice_from "/r/pkg/mod/src/y@v1/z" (len (mod_prefix "/r")))
     = "src/y/z@v1"
  /\ (forall root, In root (checkpaths (env_of "/r/pkg/mod" "/r")) ->
        HasPrefix "/r/pkg/mod/src/y@v1/z" (mod_prefix root) = true ->
        root = "/r")
  /\ genpkgpath (env_of "/r/pkg/mod" "/r") insertion_order "z"
                "/r/pkg/mod/src/y@v1/z"
     = ("y@v1/z", None).
Proof.
  repeat split; try reflexivity.
  - simpl; tauto.
  - intros root [<-|[<-|[]]]; [discriminate|reflexivity].
Qed.

(** ** Path canonicalisation: the last resort *)

(** C6, as the code has it: when no search root claims the directory and
    [guesspkg] on the directory alone is not unique, [genpkgpath] looks for
    the last [/pkg/mod/] in the directory as canonicalised at its start (the
    result of [EvalSymlinks], or the directory as given when that fails) and
    returns [pathtomodule] of what follows the marker.  The directory
    [/other/pkg/mod/example.com/foo@v2.0.0], left alone by [EvalSymlinks]
    and with no search root above it, gives [example.com/foo@v2.0.0]. *)
Theorem genpkgpath_last_resort (env : Env) (order : MapOrder) (name : string) :
  (forall dir,
      Forall (fun p => claims_dir (canonical env p) (canonical env dir) = false)
             (checkpaths env) ->
      snd (guesspkg order name [canonical env dir]) = false ->
      LastIndex (canonical env dir) mod_ <> -1 ->
      genpkgpath env order name dir
      = (pathtomodule
           (slice_from (canonical env dir)
              (LastIndex (canonical env dir) mod_ + len mod_)), None)
      /\ canonical env dir
         = slice_to (canonical env dir) (LastIndex (canonical env dir) mod_)
           ++ mod_
           ++ slice_from (canonical env dir)
                (LastIndex (canonical env dir) mod_ + len mod_))
  /\ (is_order order ->
      canonical env "/other/pkg/mod/example.com/foo@v2.0.0"
      = "/other/pkg/mod/example.com/foo@v2.0.0" ->
      (forall p, In p (checkpaths env) ->
         HasPrefix "/other/pkg/mod/example.com/foo@v2.0.0"
                   (canonical env p ++ Filepath.Separator) = false) ->
      genpkgpath env order name "/other/pkg/mod/example.com/foo@v2.0.0"
      = ("example.com/foo@v2.0.0", None)).
Proof.
  assert (Hgen : forall dir,
      Forall (fun p => claims_dir (canonical env p) (canonical env dir) = false)
             (checkpaths env) ->
      snd (guesspkg order name [canonical env dir]) = false ->
      LastIndex (canonical env dir) mod_ <> -1 ->
      genpkgpath env order name dir
      = (pathtomodule
           (slice_from (canonical env dir)
              (LastIndex (canonical env dir) mod_ + len mod_)), None)).
  { intros dir Hr Hu Hi. unfold genpkgpath. fold (checkpaths env).
    rewrite (check_roots_none env _ _ Hr).
    destruct (guesspkg order name [canonical env dir]) as [pkg unique].
    cbn [snd] in Hu. subst unique.
    apply Z.eqb_neq in Hi. now rewrite Hi. }
  split.
  - intros dir Hr Hu Hi. split; [now apply Hgen|now apply LastIndex_split].
  - intros Ho Hd Hall.
    rewrite Hgen; rewrite ?Hd.
    + reflexivity.
    + apply Forall_forall. intros p Hp. unfold claims_dir.
      now rewrite (Hall p Hp).
    + rewrite (guesspkg_single order Ho). unfold counts.
      change (negb (LastIndex "/other/pkg/mod/example.com/foo@v2.0.0" src =? -1))
        with false.
      now rewrite !andb_false_r.
    + discriminate.
Qed.

Lemma genpkgpath_last_resort_witness :
  genpkgpath (env_of "/usr/lib/go" "/root") reverse_order "foo"
             "/other/pkg/mod/example.com/foo@v2.0.0"
  = ("example.com/foo@v2.0.0", None)
  /\ genpkgpath (env_of "/usr/lib/go" "/root") reverse_order "bar"
                "/other/pkg/mod/example.com/foo@v2.0.0/cmd/bar"
     = (pathtomodule "example.com/foo@v2.0.0/cmd/bar", None).
Proof.
  split.
  - apply (proj2 (genpkgpath_last_resort (env_of "/usr/lib/go" "/root")
                    reverse_order "foo")).
    + exact reverse_order_is_order.
    + reflexivity.
    + intros p [<-|[<-|[]]]; reflexivity.
  - apply (proj1 (proj1 (genpkgpath_last_resort (env_of "/usr/lib/go" "/root")
                           reverse_order "bar")
                    "/other/pkg/mod/example.com/foo@v2.0.0/cmd/bar"
                    ltac:(repeat constructor) eq_refl ltac:(discriminate))).
Defined.

(** The module cache [/other/pkg/mod] is a symbolic link: the directory as
    given has the marker, the canonicalised one has not, and [genpkgpath]
    fails. *)
Lemma last_resort_counterexample :
  Forall (fun p => claims_dir (canonical env_linked p)
                     (canonical env_linked "/other/pkg/mod/example.com/foo@v2.0.0")
                   = false)
         (checkpaths env_linked)
  /\ snd (guesspkg insertion_order "foo"
            [canonical env_linked "/other/pkg/mod/example.com/foo@v2.0.0"]) = false
  /\ LastIndex "/other/pkg/mod/example.com/foo@v2.0.0" mod_ = 6
  /\ pathtomodule (slice_from "/other/pkg/mod/example.com/foo@v2.0.0"
                     (LastIndex "/other/pkg/mod/example.com/foo@v2.0.0" mod_
                      + len mod_))
     = "example.com/foo@v2.0.0"
  /\ Filepath.Clean "/srv/cache/example.com/foo@v2.0.0"
     = "/srv/cache/example.com/foo@v2.0.0"
  /\ genpkgpath env_linked insertion_order "foo"
                "/other/pkg/mod/example.com/foo@v2.0.0"
     = ("", Some ErrGuessFail).
Proof. repeat split; try reflexivity. repeat constructor. Qed.

(** ** Detection *)

Section NewtblFacts.

Variable path : string.

Lemma complete_no_error (newt : builder) :
  complete path newt = true -> builder_error path newt = None.
Proof.
  unfold complete, builder_error. destruct (newt path) as [tbl|]; [|discriminate].
  destruct (snd (Sym tbl)), (snd (Pcln tbl)), (snd (Text tbl));
    try discriminate; reflexivity.
Qed.

Lemma incomplete_error (newt : builder) :
  complete path newt = false -> builder_error path newt <> None.
Proof.
  unfold complete, builder_error, fail. destruct (newt path) as [tbl|]; [|discriminate].
  destruct (snd (Sym tbl)), (snd (Pcln tbl)), (snd (Text tbl));
    try discriminate; intros _; discriminate.
Qed.

(** One turn of the loop at a complete builder: it returns. *)
Lemma newtbl_loop_complete (newt : builder) (rest : list builder)
  (tbl : tabler) (st : tblstate) (closed : list nat) :
  newt path = Some tbl -> complete path newt = true ->
  newtbl_loop (newt :: rest) path st closed
  = (extracted tbl, (closed ++ [handle tbl])%list).
Proof.
  intros Ht Hc. unfold complete in Hc. cbn [newtbl_loop]. rewrite Ht in *.
  unfold extracted.
  destruct (Sym tbl) as [s [ms|]], (Pcln tbl) as [p [mp|]],
           (Text tbl) as [t [mt|]]; try discriminate.
  reflexivity.
Qed.

(** One turn of the loop at an incomplete builder: it goes on with the
    builder's error in [err], the same [typ], and the handle closed if the
    file was opened. *)
Lemma newtbl_loop_incomplete (newt : builder) (rest : list builder)
  (st : tblstate) (closed : list nat) :
  complete path newt = false ->
  exists st',
    newtbl_loop (newt :: rest) path st closed
    = newtbl_loop rest path st' (closed ++ opened path [newt])%list
    /\ typ st' = typ st /\ err st' = builder_error path newt.
Proof.
  intros Hc. unfold complete, builder_error in *. cbn [newtbl_loop opened].
  destruct (newt path) as [tbl|].
  - destruct (Sym tbl) as [s [ms|]], (Pcln tbl) as [p [mp|]],
             (Text tbl) as [t [mt|]]; try discriminate;
      eexists; (split; [reflexivity|split; reflexivity]).
  - rewrite app_nil_r. eexists; (split; [reflexivity|split; reflexivity]).
Qed.

Lemma tried_incomplete (builders : list builder) :
  forallb (fun newt => negb (complete path newt)) builders = true ->
  tried path builders = builders.
Proof.
  induction builders as [|newt rest IH]; [reflexivity|].
  cbn [forallb tried]. intros H. apply andb_true_iff in H as [Hc H].
  apply negb_true_iff in Hc. rewrite Hc. now rewrite IH.
Qed.

Lemma opened_app (l1 l2 : list builder) :
  opened path (l1 ++ l2) = (opened path l1 ++ opened path l2)%list.
Proof.
  induction l1 as [|newt l1 IH]; [reflexivity|]. cbn [app opened].
  destruct (newt path); [now rewrite IH|exact IH].
Qed.

Lemma newtbl_loop_closes (builders : list builder) (st : tblstate)
  (closed : list nat) :
  snd (newtbl_loop builders path st closed)
  = (closed ++ opened path (tried path builders))%list.
Proof.
  revert st closed; induction builders as [|newt rest IH]; intros st closed.
  - cbn. now rewrite app_nil_r.
  - cbn [tried]. destruct (complete path newt) eqn:Hc.
    + pose proof Hc as Ht. unfold complete in Ht.
      destruct (newt path) as [tbl|] eqn:E; [|discriminate].
      rewrite (newtbl_loop_complete newt rest tbl st closed E Hc).
      cbn [snd opened]. now rewrite E.
    + destruct (newtbl_loop_incomplete newt rest st closed Hc) as [st' [-> _]].
      rewrite IH. change (newt :: tried path rest) with ([newt] ++ tried path rest)%list.
      now rewrite opened_app, app_assoc.
Qed.

Lemma newtbl_loop_skip (before rest : list builder) (st : tblstate)
  (closed : list nat) :
  forallb (fun newt => negb (complete path newt)) before = true ->
  exists st',
    newtbl_loop (before ++ rest) path st closed
    = newtbl_loop rest path st' (closed ++ opened path before)%list
    /\ typ st' = typ st
    /\ err st' = match before with
                 | [] => err st
                 | _ => builder_error path (last before no_builder)
                 end.
Proof.
  revert st closed; induction before as [|newt before IH]; intros st closed H.
  - exists st. cbn. now rewrite app_nil_r.
  - cbn [forallb] in H. apply andb_true_iff in H as [Hc H].
    apply negb_true_iff in Hc.
    destruct (newtbl_loop_incomplete newt (before ++ rest) st closed Hc)
      as [st1 [E1 [T1 R1]]].
    destruct (IH st1 (closed ++ opened path [newt])%list H) as [st2 [E2 [T2 R2]]].
    exists st2. split; [|split].
    + cbn [app]. rewrite E1, E2.
      change (newt :: before) with ([newt] ++ before)%list.
      now rewrite opened_app, app_assoc.
    + congruence.
    + rewrite R2. destruct before as [|b before']; [exact R1|reflexivity].
Qed.

Lemma newtbl_takes_complete (before after : list builder) (newt : builder)
  (tbl : tabler) :
  forallb (fun b => negb (complete path b)) before = true ->
  newt path = Some tbl -> complete path newt = true ->
  fst (newtbl (before ++ newt :: after) path) = extracted tbl.
Proof.
  intros Hb Ht Hc. unfold newtbl.
  destruct (newtbl_loop_skip before (newt :: after) tblstate_zero [] Hb)
    as [st' [-> _]].
  now rewrite (newtbl_loop_complete newt after tbl st' _ Ht Hc).
Qed.

(** [newtbl] takes the first builder, in the order of [alltbl], that opens
    the file and extracts all three of symbol table, line table and text
    address from it: it returns what that builder extracted, its platform and
    a nil error, whatever the builders before it left behind. *)
Theorem newtbl_first_complete (before after : list builder) (newt : builder)
  (tbl : tabler) :
  forallb (fun b => negb (complete path b)) before = true ->
  newt path = Some tbl -> complete path newt = true ->
  fst (newtbl (before ++ newt :: after) path) = extracted tbl.
Proof. apply newtbl_takes_complete. Qed.

(** When no builder is complete, [newtbl] reports the error of the last
    builder of the list alone ([ErrNotGoExec] if that one could not open the
    file, its wrapped extraction error otherwise), with a nil platform. *)
Theorem newtbl_last_error (builders : list builder) (final : builder) :
  forallb (fun b => negb (complete path b)) (builders ++ [final]) = true ->
  err (fst (newtbl (builders ++ [final]) path)) = builder_error path final
  /\ err (fst (newtbl (builders ++ [final]) path)) <> None
  /\ typ (fst (newtbl (builders ++ [final]) path)) = nil_platform.
Proof.
  intros H. unfold newtbl.
  destruct (newtbl_loop_skip (builders ++ [final]) [] tblstate_zero [] H)
    as [st' [E [T R]]].
  rewrite app_nil_r in E. rewrite E. cbn [newtbl_loop fst].
  assert (Hr : err st' = builder_error path final).
  { rewrite R. rewrite last_last.
    destruct (builders ++ [final])%list eqn:El; [|reflexivity].
    now destruct builders. }
  split; [exact Hr|]. split; [|exact T].
  rewrite Hr. apply incomplete_error.
  rewrite forallb_app in H. apply andb_true_iff in H as [_ H].
  cbn in H. rewrite andb_true_r in H. now apply negb_true_iff in H.
Qed.

(** [newtbl] calls [Close] once on every builder that opened the file, in
    the order in which they were opened, and opens no builder after the
    first complete one. *)
Theorem newtbl_closes_opened (builders : list builder) :
  snd (newtbl builders path) = opened path (tried path builders).
Proof. unfold newtbl. now rewrite newtbl_loop_closes. Qed.

Lemma newtbl_err_iff (builders : list builder) :
  builders <> [] ->
  err (fst (newtbl builders path)) = None
  <-> existsb (complete path) builders = true.
Proof.
  intros Hne. unfold newtbl.
  assert (G : forall st closed,
    err (fst (newtbl_loop builders path st closed)) = None
    <-> existsb (complete path) builders = true).
  { induction builders as [|newt rest IH]; [contradiction|]. intros st closed.
    cbn [existsb]. destruct (complete path newt) eqn:Hc.
    - pose proof Hc as Ht. unfold complete in Ht.
      destruct (newt path) as [tbl|] eqn:E; [|discriminate].
      rewrite (newtbl_loop_complete newt rest tbl st closed E Hc).
      cbn. tauto.
    - destruct (newtbl_loop_incomplete newt rest st closed Hc)
        as [st' [-> [_ R]]].
      destruct rest as [|b rest'].
      + cbn [newtbl_loop fst existsb orb]. rewrite R.
        pose proof (incomplete_error newt Hc). split; [tauto|discriminate].
      + cbn [orb]. apply IH. discriminate. }
  apply G.
Qed.

End NewtblFacts.

Lemma newtbl_first_complete_witness :
  fst (newtbl [pe_broken; no_builder; elf_only; pe_broken] "/bin/tool")
  = {| typ := PlatformLinuxAMD64; symtab := []; pclntab := [Byte.xfb];
       text := 4198400; err := None |}.
Proof.
  apply (newtbl_first_complete "/bin/tool" [pe_broken; no_builder] [pe_broken]
           elf_only
           {| handle := 3; Sym := ([], None); Pcln := ([Byte.xfb], None);
              Text := (4198400, None); TypeOf := PlatformLinuxAMD64 |});
    reflexivity.
Defined.

Lemma newtbl_last_error_witness :
  err (fst (newtbl [pe_broken; elf_only] "/bin/other")) = Some (Known ErrNotGoExec)
  /\ err (fst (newtbl [elf_only; pe_broken] "/bin/other"))
     = Some (ErrorString
               "which: unable to read Go symbol table: no .gopclntab section").
Proof.
  split.
  - apply (newtbl_last_error "/bin/other" [pe_broken] elf_only). reflexivity.
  - apply (newtbl_last_error "/bin/other" [elf_only] pe_broken). reflexivity.
Defined.

Section DetectionFacts.

Variables newelf newmacho newpe : builder.
Variable LineTable : Type.
Variable NewLineTable : list Byte.byte -> Z -> option LineTable.
Variable NewTable : list Byte.byte -> LineTable -> option Table.

Lemma alltbl_permutation (goos : string) :
  Permutation [newelf; newmacho; newpe] (alltbl newelf newmacho newpe goos).
Proof.
  unfold alltbl. destruct (String.eqb goos "darwin").
  - apply perm_swap.
  - destruct (String.eqb goos "windows"); [|reflexivity].
    apply perm_trans with [newmacho; newelf; newpe]; [apply perm_swap|].
    apply perm_trans with [newmacho; newpe; newelf]; [|apply perm_swap].
    apply perm_skip, perm_swap.
Qed.

Lemma existsb_permutation {A : Type} (f : A -> bool) (l l' : list A) :
  Permutation l l' -> existsb f l = existsb f l'.
Proof.
  intros Hp. destruct (existsb f l') eqn:E.
  - apply existsb_exists in E as [x [Hx Hf]]. apply existsb_exists.
    exists x. split; [|exact Hf].
    eapply Permutation_in; [symmetry; exact Hp|exact Hx].
  - destruct (existsb f l) eqn:E'; [|reflexivity].
    apply existsb_exists in E' as [x [Hx Hf]].
    assert (existsb f l' = true).
    { apply existsb_exists. exists x. split; [|exact Hf].
      eapply Permutation_in; [exact Hp|exact Hx]. }
    congruence.
Qed.

Lemma alltbl_nonempty (goos : string) : alltbl newelf newmacho newpe goos <> [].
Proof.
  unfold alltbl. destruct (String.eqb goos "darwin"); [discriminate|].
  destruct (String.eqb goos "windows"); discriminate.
Qed.

(** Whether [newtbl] finds a symbol table in a file does not depend on the
    operating system of the host: the order of [alltbl] that [init] picks
    decides only which builder is asked first.  It finds one exactly when
    one of the three builders is complete on the file. *)
Theorem newtbl_host_independent (goos goos' : string) (path : string) :
  (err (fst (newtbl (alltbl newelf newmacho newpe goos) path)) = None
   <-> existsb (complete path) [newelf; newmacho; newpe] = true)
  /\ (err (fst (newtbl (alltbl newelf newmacho newpe goos) path)) = None
      <-> err (fst (newtbl (alltbl newelf newmacho newpe goos') path)) = None).
Proof.
  assert (H : forall g,
    err (fst (newtbl (alltbl newelf newmacho newpe g) path)) = None
    <-> existsb (complete path) [newelf; newmacho; newpe] = true).
  { intros g. rewrite (newtbl_err_iff path _ (alltbl_nonempty g)).
    now rewrite (existsb_permutation _ _ _ (alltbl_permutation g)). }
  split; [apply H|]. now rewrite !H.
Qed.

Lemma NewExec_cases (goos path : string) :
  match NewExec newelf newmacho newpe LineTable NewLineTable NewTable goos path with
  | (Some ex, None) => Path ex = path
  | (None, Some _) => True
  | _ => False
  end.
Proof.
  unfold NewExec.
  destruct (err (fst (newtbl _ path))); [exact I|].
  destruct (NewLineTable _ _) as [lntab|]; [|exact I].
  destruct (NewTable _ lntab); [reflexivity|exact I].
Qed.

(** A file that none of the three builders opens is no Go executable:
    [NewExec] and [Import] fail with [ErrNotGoExec] on every host, the
    import path is empty, and nothing was opened that would have to be
    closed. *)
Theorem Import_path_unrecognised (env : Env) (order : MapOrder)
  (goos path : string) :
  newelf path = None -> newmacho path = None -> newpe path = None ->
  NewExec newelf newmacho newpe LineTable NewLineTable NewTable goos path
  = (None, Some (Known ErrNotGoExec))
  /\ Import_path newelf newmacho newpe LineTable NewLineTable NewTable
       env order goos path
     = ("", Some (Known ErrNotGoExec))
  /\ snd (newtbl (alltbl newelf newmacho newpe goos) path) = [].
Proof.
  intros He Hm Hp.
  assert (Hs : newtbl (alltbl newelf newmacho newpe goos) path
               = ({| typ := nil_platform; symtab := []; pclntab := [];
                     text := 0; err := Some (Known ErrNotGoExec) |}, [])).
  { unfold newtbl, alltbl.
    destruct (String.eqb goos "darwin");
      [|destruct (String.eqb goos "windows")];
      cbn [newtbl_loop]; rewrite He, Hm, Hp; reflexivity. }
  assert (Hn : NewExec newelf newmacho newpe LineTable NewLineTable NewTable
                 goos path = (None, Some (Known ErrNotGoExec))).
  { unfold NewExec. now rewrite Hs. }
  split; [exact Hn|]. split; [|now rewrite Hs].
  unfold Import_path. now rewrite Hn.
Qed.

(** A file whose first complete builder yields tables that [debug/gosym]
    accepts becomes the executable with the path given, the platform of
    that builder and the decoded table; [Import] on the file is then
    [Exec.Import] on that executable. *)
Theorem NewExec_first_complete (env : Env) (order : MapOrder)
  (goos path : string) (before after : list builder) (newt : builder)
  (tbl : tabler) (lntab : LineTable) (tab : Table) :
  alltbl newelf newmacho newpe goos = (before ++ newt :: after)%list ->
  forallb (fun b => negb (complete path b)) before = true ->
  newt path = Some tbl -> complete path newt = true ->
  NewLineTable (fst (Pcln tbl)) (fst (Text tbl)) = Some lntab ->
  NewTable (fst (Sym tbl)) lntab = Some tab ->
  NewExec newelf newmacho newpe LineTable NewLineTable NewTable goos path
  = (Some {| Path := path; Type_ := TypeOf tbl; table := tab |}, None)
  /\ fst (Import_path newelf newmacho newpe LineTable NewLineTable NewTable
            env order goos path)
     = fst (Import env order {| Path := path; Type_ := TypeOf tbl; table := tab |}).
Proof.
  intros Hl Hb Ht Hc Hlt Htab.
  assert (Hn : NewExec newelf newmacho newpe LineTable NewLineTable NewTable
                 goos path
               = (Some {| Path := path; Type_ := TypeOf tbl; table := tab |}, None)).
  { unfold NewExec.
    rewrite Hl, (newtbl_takes_complete path before after newt tbl Hb Ht Hc).
    cbn [extracted err pclntab text symtab typ]. now rewrite Hlt, Htab. }
  split; [exact Hn|].
  unfold Import_path. rewrite Hn.
  now destruct (Import env order _).
Qed.

(** The package-level [Import] returns a path that is not empty and a nil
    error, or an error and the empty path, whatever the builders and the
    decoders of [debug/gosym] do. *)
Theorem Import_path_exclusive (env : Env) (order : MapOrder)
  (goos path : string) :
  is_order order -> symlinks_clean env ->
  exclusive_any (Import_path newelf newmacho newpe LineTable NewLineTable
                   NewTable env order goos path).
Proof.
  intros Ho Hs. unfold Import_path.
  pose proof (NewExec_cases goos path) as Hx.
  destruct (NewExec _ _ _ _ _ _ goos path) as [[ex|] [e|]];
    try contradiction; try reflexivity.
  unfold Import, Import_st.
  destruct (LookupFunc (table ex) "main.main") as [mainfn|]; [|reflexivity].
  destruct (PCToLine (table ex) (Entry mainfn)) as [[file line] [fn|]].
  - cbn [snd].
    pose proof (genpkgpath_exclusive env order Ho Hs (searchname ex)
                  (Filepath.Dir file) (Dir_tidy file)) as Hg.
    destruct (genpkgpath env order _ _) as [p [e|]]; exact Hg.
  - destruct (guesspkg order (searchname ex) _) as [pkg unique].
    destruct unique; cbn [andb]; [|reflexivity].
    destruct (String.eqb_spec pkg ""); cbn; [reflexivity|assumption].
Qed.

End DetectionFacts.

Lemma newtbl_host_independent_witness :
  err (fst (newtbl (alltbl elf_only no_builder pe_broken "windows") "/bin/tool"))
  = None.
Proof.
  apply (proj1 (proj2 (newtbl_host_independent elf_only no_builder pe_broken
                         "linux" "windows" "/bin/tool"))).
  apply (proj2 (proj1 (newtbl_host_independent elf_only no_builder pe_broken
                         "linux" "windows" "/bin/tool"))).
  reflexivity.
Defined.

Lemma Import_path_unrecognised_witness :
  Import_path elf_only no_builder no_builder (list Byte.byte * Z) line_table_of
    (table_from "/w/src/x/tool/main.go")
    (env_of "/usr/lib/go" "/w") insertion_order "darwin" "/etc/passwd"
  = ("", Some (Known ErrNotGoExec)).
Proof.
  apply (Import_path_unrecognised elf_only no_builder no_builder
           (list Byte.byte * Z) line_table_of (table_from "/w/src/x/tool/main.go")
           (env_of "/usr/lib/go" "/w") insertion_order "darwin" "/etc/passwd");
    reflexivity.
Defined.

Lemma NewExec_first_complete_witness :
  NewExec pe_broken no_builder elf_only (list Byte.byte * Z) line_table_of
    (table_from "/w/src/x/tool/main.go") "linux" "/bin/tool"
  = (Some {| Path := "/bin/tool"; Type_ := PlatformLinuxAMD64;
             table := table_at "/w/src/x/tool/main.go" |}, None)
  /\ fst (Import_path pe_broken no_builder elf_only (list Byte.byte * Z)
            line_table_of (table_from "/w/src/x/tool/main.go")
            (env_of "/usr/lib/go" "/w") insertion_order "linux" "/bin/tool")
     = "x/tool".
Proof.
  apply (NewExec_first_complete pe_broken no_builder elf_only
           (list Byte.byte * Z) line_table_of (table_from "/w/src/x/tool/main.go")
           (env_of "/usr/lib/go" "/w") insertion_order "linux" "/bin/tool"
           [pe_broken; no_builder] [] elf_only
           {| handle := 3; Sym := ([], None); Pcln := ([Byte.xfb], None);
              Text := (4198400, None); TypeOf := PlatformLinuxAMD64 |}
           ([Byte.xfb], 4198400) (table_at "/w/src/x/tool/main.go"));
    reflexivity.
Defined.

(** ** More on module-path reconstruction *)

Section PathtomoduleMore.

Lemma occurs_take (c : ascii) (n : nat) (s : string) :
  occurs c s = false -> occurs c (take n s) = false.
Proof.
  revert s; induction n as [|n IH]; intros [|d s]; simpl; try reflexivity.
  intros H. apply orb_false_iff in H as [-> H]. now apply IH.
Qed.

Lemma IndexByte_none (s : string) (c : ascii) :
  IndexByte s c = -1 <-> occurs c s = false.
Proof.
  induction s as [|d s IH]; cbn [IndexByte occurs]; [tauto|].
  pose proof (IndexByte_lower s c) as Hl.
  destruct (Ascii.eqb d c); simpl; [split; [lia|discriminate]|].
  destruct (Z.eqb_spec (IndexByte s c) (-1)) as [E|E].
  - split; intros _; [now apply IH|reflexivity].
  - split; [lia|]. intros H. now apply IH in H.
Qed.

Lemma IndexByte_before (s : string) (c : ascii) :
  IndexByte s c <> -1 -> occurs c (slice_to s (IndexByte s c)) = false.
Proof.
  unfold slice_to. induction s as [|d s IH]; cbn [IndexByte]; [easy|].
  pose proof (IndexByte_lower s c) as Hl.
  destruct (Ascii.eqb d c) eqn:Ed; [reflexivity|].
  destruct (Z.eqb_spec (IndexByte s c) (-1)) as [E|E]; [easy|]. intros _.
  rewrite Z2Nat.inj_add by lia. rewrite Nat.add_comm. simpl.
  rewrite Ed. now apply IH.
Qed.

Lemma LastIndexByte_last (s : string) (c : ascii) :
  LastIndexByte s c <> -1 ->
  exists t, slice_from s (LastIndexByte s c) = String c t /\ occurs c t = false.
Proof.
  unfold slice_from; induction s as [|d s IH]; cbn [LastIndexByte]; [easy|].
  pose proof (LastIndexByte_lower s c) as Hl.
  destruct (Z.eqb_spec (LastIndexByte s c) (-1)) as [E|E].
  - destruct (Ascii.eqb d c) eqn:Ec; [|easy].
    apply Ascii.eqb_eq in Ec; subst d. intros _. exists s.
    split; [reflexivity|now apply LastIndexByte_none].
  - intros _. destruct (IH E) as [t Ht].
    exists t. rewrite Z2Nat.inj_add by lia.
    rewrite Nat.add_comm. simpl. exact Ht.
Qed.

(** The result of [pathtomodule] is the directory itself, or ends in the
    version element: an [@] followed by neither [@] nor separator. *)
Lemma pathtomodule_shape (dir : string) :
  (pathtomodule dir = dir
   /\ (LastIndexByte dir "@" = -1
       \/ IndexByte (slice_from dir (LastIndexByte dir "@"))
                    Filepath.PathSeparator = -1))
  \/ exists x v, pathtomodule dir = x ++ String "@" v
                 /\ occurs "@" v = false
                 /\ occurs Filepath.PathSeparator v = false.
Proof.
  unfold pathtomodule.
  destruct (Z.eqb_spec (LastIndexByte dir "@") (-1)) as [|Hat]; [left; auto|].
  destruct (LastIndexByte_last dir "@" Hat) as [t [Ht Hnoat]]. rewrite Ht.
  destruct (Z.eqb_spec (IndexByte (String "@" t) Filepath.PathSeparator) (-1))
    as [E|Hsep]; [left; auto|].
  right.
  pose proof (IndexByte_before (String "@" t) Filepath.PathSeparator Hsep) as Hb.
  revert Hb Hsep. cbn [IndexByte].
  change (Ascii.eqb "@" Filepath.PathSeparator) with false. cbv iota.
  pose proof (IndexByte_lower t Filepath.PathSeparator) as Hl.
  destruct (Z.eqb_spec (IndexByte t Filepath.PathSeparator) (-1)); [easy|].
  intros Hb _. unfold slice_to in *.
  rewrite Z2Nat.inj_add in * by lia. rewrite Nat.add_comm in *.
  cbn [Nat.add Z.to_nat Pos.to_nat Pos.iter_op take occurs] in *.
  change (Ascii.eqb "@" Filepath.PathSeparator) with false in Hb.
  eexists _, _. split; [reflexivity|]. split; [|exact Hb].
  now apply occurs_take.
Qed.

Lemma pathtomodule_fixed (x v : string) :
  occurs "@" v = false -> occurs Filepath.PathSeparator v = false ->
  pathtomodule (x ++ String "@" v) = x ++ String "@" v.
Proof.
  intros Hat Hsep. unfold pathtomodule.
  rewrite (LastIndexByte_append x v "@" Hat).
  unfold slice_from, len. rewrite Nat2Z.id, drop_append.
  destruct (Z.eqb_spec (Z.of_nat (String.length x)) (-1)); [reflexivity|].
  assert (E : IndexByte (String "@" v) Filepath.PathSeparator = -1).
  { apply IndexByte_none. simpl. exact Hsep. }
  now rewrite E.
Qed.

(** [pathtomodule] is idempotent: a reconstructed path is left as it is. *)
Theorem pathtomodule_idempotent (dir : string) :
  pathtomodule (pathtomodule dir) = pathtomodule dir.
Proof.
  destruct (pathtomodule_shape dir) as [[E _]|[x [v [E [Hat Hsep]]]]].
  - now rewrite E.
  - rewrite E. now apply pathtomodule_fixed.
Qed.

(** In the result of [pathtomodule] no path separator follows the last
    [@]: the version is never left in the middle of the path. *)
Theorem pathtomodule_version_last (dir : string) :
  LastIndexByte (pathtomodule dir) "@" = -1
  \/ IndexByte (slice_from (pathtomodule dir)
                  (LastIndexByte (pathtomodule dir) "@"))
               Filepath.PathSeparator = -1.
Proof.
  destruct (pathtomodule_shape dir) as [[E H]|[x [v [E [Hat Hsep]]]]].
  - now rewrite E.
  - right. rewrite E, (LastIndexByte_append x v "@" Hat).
    unfold slice_from, len. rewrite Nat2Z.id, drop_append.
    apply IndexByte_none. simpl. exact Hsep.
Qed.

(** A module built at its top level, [<module>@<version>] with nothing
    after the version, is used as it is. *)
Theorem pathtomodule_top_level (m v : string) :
  occurs "@" v = false -> occurs Filepath.PathSeparator v = false ->
  pathtomodule (m ++ "@" ++ v) = m ++ "@" ++ v.
Proof. apply pathtomodule_fixed. Qed.

End PathtomoduleMore.

Lemma pathtomodule_top_level_witness :
  pathtomodule "golang.org/x/tools@v0.1.12" = "golang.org/x/tools@v0.1.12".
Proof.
  exact (pathtomodule_top_level "golang.org/x/tools" "v0.1.12" eq_refl eq_refl).
Defined.

(** ** More on [guesspkg] *)

Section GuessMore.

Variable order : MapOrder.
Hypothesis order_ok : is_order order.

Lemma single_hit (s : string) (dirs : list string) (d : string) :
  filter (counts s) (range_keys order s dirs) = [d] ->
  In d dirs /\ counts s d = true
  /\ forall d', In d' dirs -> counts s d' = true -> d' = d.
Proof.
  intros E.
  assert (Hd : In d (filter (counts s) (range_keys order s dirs)))
    by (rewrite E; now left).
  apply filter_In in Hd as [Hin Hc].
  split; [|split; [exact Hc|]].
  - eapply Permutation_in; [symmetry; apply order_ok|exact Hin].
  - intros d' Hin' Hc'.
    assert (Hd' : In d' (filter (counts s) (range_keys order s dirs))).
    { apply filter_In. split; [|exact Hc'].
      eapply Permutation_in; [apply order_ok|exact Hin']. }
    rewrite E in Hd'. destruct Hd' as [<-|[]]. reflexivity.
Qed.

Lemma counts_name (name d : string) :
  counts ("cmd" ++ Filepath.Separator ++ name) d = true \/ counts name d = true ->
  Contains d name = true /\ LastIndex d src <> -1.
Proof.
  unfold counts. intros [H|H]; apply andb_true_iff in H as [Hc Hs];
    apply negb_true_iff, Z.eqb_neq in Hs; (split; [|exact Hs]).
  - apply (Contains_longer d ("cmd" ++ Filepath.Separator) name). exact Hc.
  - exact Hc.
Qed.

(** The unique answer of [guesspkg], told from the directories. *)
Lemma guesspkg_unique_inv (name : string) (dirs : list string) :
  snd (guesspkg order name dirs) = true ->
  exists d s,
    In d dirs
    /\ (s = "cmd" ++ Filepath.Separator ++ name
        \/ (s = name
            /\ forall d', In d' dirs ->
                 counts ("cmd" ++ Filepath.Separator ++ name) d' = false))
    /\ counts s d = true
    /\ (forall d', In d' dirs -> counts s d' = true -> d' = d)
    /\ fst (guesspkg order name dirs) = proposal d.
Proof.
  rewrite guesspkg_passes. cbv zeta.
  destruct (filter _ (range_keys order ("cmd" ++ _) dirs)) as [|a [|b r]] eqn:E1.
  - destruct (filter _ (range_keys order name dirs)) as [|c [|e t]] eqn:E2;
      cbn [fst snd]; try discriminate. intros _.
    destruct (single_hit _ _ _ E2) as [Hin [Hc Hu]].
    exists c, name. repeat split; auto. right. split; [reflexivity|].
    intros d' Hd'. destruct (counts _ d') eqn:Ec; [|reflexivity].
    assert (Hx : In d' (filter (counts ("cmd" ++ Filepath.Separator ++ name))
                          (range_keys order ("cmd" ++ Filepath.Separator ++ name) dirs))).
    { apply filter_In. split; [|exact Ec].
      eapply Permutation_in; [apply order_ok|exact Hd']. }
    rewrite E1 in Hx. destruct Hx.
  - cbn [fst snd]. intros _. destruct (single_hit _ _ _ E1) as [Hin [Hc Hu]].
    exists a, ("cmd" ++ Filepath.Separator ++ name). repeat split; auto.
  - cbn [snd]. discriminate.
Qed.

(** When [guesspkg] reports a unique package, it is what follows the last
    [/src/] of a directory of the set that contains the name of the
    executable, and no other directory of the set matches the search string
    that decided. *)
Theorem guesspkg_unique_sound (name : string) (dirs : list string) :
  snd (guesspkg order name dirs) = true ->
  exists d,
    In d dirs /\ Contains d name = true
    /\ d = slice_to d (LastIndex d src) ++ src ++ fst (guesspkg order name dirs)
    /\ exists s,
         (s = "cmd" ++ Filepath.Separator ++ name \/ s = name)
         /\ counts s d = true
         /\ forall d', In d' dirs -> counts s d' = true -> d' = d.
Proof.
  intros H. destruct (guesspkg_unique_inv name dirs H)
    as [d [s [Hin [Hs [Hc [Hu Hp]]]]]].
  assert (Hn : Contains d name = true /\ LastIndex d src <> -1).
  { apply counts_name. destruct Hs as [->|[-> _]]; auto. }
  destruct Hn as [Hn Hi].
  exists d. split; [exact Hin|]. split; [exact Hn|]. split.
  - rewrite Hp. now apply LastIndex_split.
  - exists s. split; [|split; assumption]. destruct Hs as [->|[-> _]]; auto.
Qed.

Lemma guesspkg_markerless (name : string) (dirs : list string) :
  (forall d, In d dirs -> LastIndex d src = -1) ->
  guesspkg order name dirs = ("", false).
Proof.
  intros H. rewrite guesspkg_passes. cbv zeta.
  assert (Hc : forall s d, In d dirs -> counts s d = false).
  { intros s d Hd. unfold counts. rewrite (H d Hd). apply andb_false_r. }
  now rewrite !(hits_empty order order_ok _ dirs (Hc _)).
Qed.

(** Directories without a [/src/] marker never give a package: on a set of
    such directories, the empty set among them, [guesspkg] returns the empty
    string and no uniqueness. *)
Theorem guesspkg_no_marker (name : string) (dirs : list string) :
  (forall d, In d dirs -> LastIndex d src = -1) ->
  guesspkg order name dirs = ("", false).
Proof. apply guesspkg_markerless. Qed.

End GuessMore.

Lemma guesspkg_unique_sound_witness :
  exists d,
    In d ["/opt/build/prog"; "/home/u/src/x/prog"; "/home/u/src/x/lib"]
    /\ Contains d "prog" = true
    /\ d = slice_to d (LastIndex d src) ++ src
           ++ fst (guesspkg reverse_order "prog"
                     ["/opt/build/prog"; "/home/u/src/x/prog"; "/home/u/src/x/lib"])
    /\ exists s,
         (s = "cmd" ++ Filepath.Separator ++ "prog" \/ s = "prog")
         /\ counts s d = true
         /\ forall d', In d' ["/opt/build/prog"; "/home/u/src/x/prog";
                              "/home/u/src/x/lib"] ->
                       counts s d' = true -> d' = d.
Proof.
  apply (guesspkg_unique_sound reverse_order reverse_order_is_order "prog"
           ["/opt/build/prog"; "/home/u/src/x/prog"; "/home/u/src/x/lib"]).
  reflexivity.
Defined.

Lemma guesspkg_no_marker_witness :
  guesspkg reverse_order "prog" ["/opt/build/cmd/prog"; "/tmp/prog"] = ("", false).
Proof.
  apply (guesspkg_no_marker reverse_order reverse_order_is_order).
  intros d [<-|[<-|[]]]; reflexivity.
Defined.

(** ** The path filter *)

Section FilterFacts.

Variable env : Env.

Lemma filtered_members (frag : string) :
  In frag (filtered env) <->
  In frag ["/tmp/makerelease"; "<autogenerated>"; "c:/go/src"; "/usr/local/go/src"]
  \/ frag = GOROOT env \/ GOROOT_FINAL env = Some frag.
Proof.
  unfold filtered, Filepath.FromSlash.
  destruct (GOROOT_FINAL env) as [final|]; rewrite !map_insert_In.
  - split.
    + intros [->|[->|H]]; auto.
    + intros [H|[->|[= ->]]]; auto.
  - split; [intros [->|H]; auto|]. intros [H|[->|H]]; auto. discriminate.
Qed.

Lemma filtered_NoDup : NoDup (filtered env).
Proof.
  unfold filtered, Filepath.FromSlash.
  assert (H : NoDup ["/tmp/makerelease"; "<autogenerated>"; "c:/go/src";
                     "/usr/local/go/src"]).
  { repeat constructor; simpl; intuition discriminate. }
  destruct (GOROOT_FINAL env); repeat apply map_insert_NoDup; exact H.
Qed.

(** A file is filtered exactly when it contains one of the four fixed
    fragments, the toolchain root or the final toolchain root, whatever the
    order of the loop over the filter set; the set has each of them once. *)
Theorem isfiltered_fragments (order : MapOrder) (file : string) :
  is_order order ->
  (isfiltered env order file = true <->
   exists frag,
     (In frag ["/tmp/makerelease"; "<autogenerated>"; "c:/go/src";
               "/usr/local/go/src"]
      \/ frag = GOROOT env \/ GOROOT_FINAL env = Some frag)
     /\ Contains file frag = true)
  /\ NoDup (filtered env).
Proof.
  intros Ho. split; [|apply filtered_NoDup].
  rewrite (isfiltered_iff env order file Ho).
  split; intros [frag [Hin Hc]]; exists frag; (split; [|exact Hc]);
    now apply filtered_members.
Qed.

Lemma Contains_empty (s : string) : Contains s "" = true.
Proof. apply Contains_iff. now exists "", s. Qed.

Lemma scan_funcs_all_filtered (order : MapOrder) (file : string)
  (funcs : list Func) (dirs : list string) :
  isfiltered env order file = true ->
  scan_funcs env order file dirs funcs = dirs.
Proof.
  intros Hf. unfold scan_funcs. rewrite Hf. cbn [negb].
  induction funcs as [|f fs IH]; cbn [fold_left]; [reflexivity|].
  rewrite andb_false_r. exact IH.
Qed.

Lemma scan_files_all_filtered (order : MapOrder)
  (files : list (string * Obj)) (dirs : list string) :
  (forall file, isfiltered env order file = true) ->
  scan_files env order files dirs = dirs.
Proof.
  intros Hf. unfold scan_files.
  induction files as [|[file obj] files IH]; cbn [fold_left fst snd];
    [reflexivity|].
  now rewrite scan_funcs_all_filtered.
Qed.

(** With an empty toolchain root, as [runtime.GOROOT()] gives it for a
    program built with [-trimpath], every file is filtered: the fallback
    scan collects no candidate and [Import] fails whenever the line table
    names no function for [main.main]. *)
Theorem empty_goroot_filters_all (order : MapOrder) (ex : Exec)
  (mainfn : Func) (file : string) (line : Z) :
  is_order order ->
  GOROOT env = "" ->
  LookupFunc (table ex) "main.main" = Some mainfn ->
  PCToLine (table ex) (Entry mainfn) = (file, line, None) ->
  (forall f, isfiltered env order f = true)
  /\ Import_st env order ex = ([], ("", Some ErrGuessFail)).
Proof.
  intros Ho Hg Hl Hpc.
  assert (Hf : forall f, isfiltered env order f = true).
  { intros f. apply (isfiltered_iff env order f Ho). exists "".
    split; [|apply Contains_empty].
    apply filtered_members. right. left. now rewrite Hg. }
  split; [exact Hf|].
  unfold Import_st. rewrite Hl, Hpc.
  rewrite (scan_files_all_filtered order _ [] Hf).
  rewrite (guesspkg_markerless order Ho (searchname ex) []); [reflexivity|].
  intros d [].
Qed.

End FilterFacts.

Lemma isfiltered_fragments_witness :
  isfiltered (env_of "/opt/go" "/w") reverse_order "/opt/go/src/runtime/proc.go"
  = true.
Proof.
  apply (proj1 (isfiltered_fragments (env_of "/opt/go" "/w") reverse_order
                  "/opt/go/src/runtime/proc.go" reverse_order_is_order)).
  exists "/opt/go". split; [right; left; reflexivity|reflexivity].
Defined.

Lemma empty_goroot_filters_all_witness :
  Import_st env_trimpath insertion_order
    (exec_of "/usr/local/bin/prog" PlatformLinuxAMD64
       (table_of ["/home/u/src/x/cmd/prog/main.go"]))
  = ([], ("", Some ErrGuessFail)).
Proof.
  apply (empty_goroot_filters_all env_trimpath insertion_order
           (exec_of "/usr/local/bin/prog" PlatformLinuxAMD64
              (table_of ["/home/u/src/x/cmd/prog/main.go"]))
           main_main "" 0 insertion_order_is_order);
    reflexivity.
Defined.

(** ** The search roots *)

Section GopathFacts.

Lemma Split_nonempty (s : string) (sep : ascii) : Split s sep <> [].
Proof.
  destruct s as [|c s]; cbn [Split]; [discriminate|].
  destruct (Ascii.eqb c sep); [discriminate|].
  destruct (Split s sep); discriminate.
Qed.

Lemma Join_Split (s : string) (sep : ascii) :
  Strings.Join (Split s sep) (String sep "") = s.
Proof.
  induction s as [|c s IH]; [reflexivity|]. cbn [Split].
  pose proof (Split_nonempty s sep) as Hne.
  destruct (Ascii.eqb_spec c sep) as [->|Hc].
  - destruct (Split s sep) as [|x xs]; [contradiction|].
    change (Strings.Join ("" :: x :: xs) (String sep ""))
      with (String sep (Strings.Join (x :: xs) (String sep ""))).
    now rewrite IH.
  - destruct (Split s sep) as [|x xs]; [contradiction|].
    destruct xs as [|y ys]; cbn in *; now rewrite IH.
Qed.

(** [getgopath] cuts [$GOPATH], or the default when [$GOPATH] is empty, at
    every colon: the list always has an element, no element contains a
    colon, and joining the elements with colons gives the variable back. *)
Theorem getgopath_roundtrip (env : Env) :
  getgopath env <> []
  /\ Forall (fun root => occurs ":" root = false) (getgopath env)
  /\ Strings.Join (getgopath env) ":"
     = (if String.eqb (GOPATH env) "" then DefaultGOPATH env else GOPATH env).
Proof.
  unfold getgopath. split; [apply Split_nonempty|].
  split; [apply Split_no_sep|apply Join_Split].
Qed.

End GopathFacts.

(** ** More on [genpkgpath] *)

Section GenpkgpathMore.

Variable env : Env.
Variable order : MapOrder.
Hypothesis order_ok : is_order order.

Lemma check_roots_some (dir : string) (roots : list string)
  (r : string * option error) :
  check_roots env dir roots = Some r ->
  snd r = None
  /\ exists root, In root roots /\ claims_dir (canonical env root) dir = true.
Proof.
  induction roots as [|root rest IH]; [discriminate|].
  destruct (claims_dir (canonical env root) dir) eqn:Hc.
  - rewrite (check_roots_claimed env dir root rest Hc). intros [= <-].
    split; [reflexivity|]. exists root. split; [now left|exact Hc].
  - rewrite (check_roots_unclaimed env dir root rest Hc). intros H.
    destruct (IH H) as [Hs [q [Hq Hcq]]]. split; [exact Hs|].
    exists q. split; [now right|exact Hcq].
Qed.

Lemma check_roots_none_iff (dir : string) (roots : list string) :
  check_roots env dir roots = None
  <-> Forall (fun p => claims_dir (canonical env p) dir = false) roots.
Proof.
  split; [|apply check_roots_none].
  intros H. apply Forall_forall. intros p Hp.
  destruct (claims_dir (canonical env p) dir) eqn:Hc; [|reflexivity].
  apply in_split in Hp as [l1 [l2 ->]].
  induction l1 as [|q l1 IH]; cbn [app] in H.
  - rewrite (check_roots_claimed env dir p l2 Hc) in H. discriminate.
  - destruct (claims_dir (canonical env q) dir) eqn:Hq.
    + rewrite (check_roots_claimed env dir q _ Hq) in H. discriminate.
    + rewrite (check_roots_unclaimed env dir q _ Hq) in H. now apply IH.
Qed.

(** Outside every search root a directory is still resolved by the name of
    the executable: when it contains the name, or [cmd/] and the name, and a
    [/src/] marker, the package is what follows the last marker. *)
Theorem genpkgpath_by_name (name dir : string) :
  Forall (fun p => claims_dir (canonical env p) (canonical env dir) = false)
         (checkpaths env) ->
  counts ("cmd" ++ Filepath.Separator ++ name) (canonical env dir)
  || counts name (canonical env dir) = true ->
  genpkgpath env order name dir = (proposal (canonical env dir), None)
  /\ canonical env dir
     = slice_to (canonical env dir) (LastIndex (canonical env dir) src)
       ++ src ++ proposal (canonical env dir).
Proof.
  intros Hr Hc. split.
  - unfold genpkgpath. fold (checkpaths env).
    rewrite (check_roots_none env _ _ Hr), (guesspkg_single order order_ok).
    now rewrite Hc.
  - apply LastIndex_split.
    apply orb_true_iff in Hc. now apply (counts_name name).
Qed.

(** [genpkgpath] fails exactly when no search root has the canonicalised
    directory below its [src/] or [pkg/mod/], the directory does not contain
    both the name of the executable and a [/src/] marker, and it has no
    [/pkg/mod/] marker; the error is then [ErrGuessFail] and the path is
    empty. *)
Theorem genpkgpath_fails_iff (name dir : string) :
  (snd (genpkgpath env order name dir) <> None
   <-> Forall (fun p => claims_dir (canonical env p) (canonical env dir) = false)
              (checkpaths env)
       /\ counts ("cmd" ++ Filepath.Separator ++ name) (canonical env dir)
          || counts name (canonical env dir) = false
       /\ LastIndex (canonical env dir) mod_ = -1)
  /\ (snd (genpkgpath env order name dir) <> None ->
      genpkgpath env order name dir = ("", Some ErrGuessFail)).
Proof.
  unfold genpkgpath. fold (checkpaths env).
  destruct (check_roots env (canonical env dir) (checkpaths env)) as [r|] eqn:E.
  - destruct (check_roots_some _ _ _ E) as [Hs [root [Hin Hc]]].
    split; [|now rewrite Hs]. rewrite Hs. split; [easy|].
    intros [Hall _]. rewrite Forall_forall in Hall.
    rewrite (Hall root Hin) in Hc. discriminate.
  - apply check_roots_none_iff in E.
    rewrite (guesspkg_single order order_ok).
    destruct (counts _ (canonical env dir) || counts name (canonical env dir)).
    + cbn [snd]. split; [|easy]. split; [easy|]. now intros [_ [H _]].
    + destruct (Z.eqb_spec (LastIndex (canonical env dir) mod_) (-1)) as [Hi|Hi];
        cbn [negb snd].
      * split; [|reflexivity]. split; [auto|discriminate].
      * split; [|easy]. split; [easy|]. now intros [_ [_ H]].
Qed.

End GenpkgpathMore.

Lemma genpkgpath_by_name_witness :
  genpkgpath (env_of "/usr/lib/go" "/root") reverse_order "prog" "/w/src/x/prog"
  = ("x/prog", None).
Proof.
  apply (genpkgpath_by_name (env_of "/usr/lib/go" "/root") reverse_order
           reverse_order_is_order "prog" "/w/src/x/prog").
  - repeat constructor.
  - reflexivity.
Defined.

Lemma genpkgpath_fails_iff_witness :
  genpkgpath (env_of "/usr/lib/go" "/root") reverse_order "prog" "/build/work"
  = ("", Some ErrGuessFail).
Proof.
  apply (proj2 (genpkgpath_fails_iff (env_of "/usr/lib/go" "/root") reverse_order
                  reverse_order_is_order "prog" "/build/work")).
  apply (proj2 (proj1 (genpkgpath_fails_iff (env_of "/usr/lib/go" "/root")
                         reverse_order reverse_order_is_order "prog"
                         "/build/work"))).
  split; [repeat constructor|split; reflexivity].
Defined.

(** ** The fallback of [Exec.Import] *)

(** A path that the fallback of [Import] returns comes from the table: it
    is what follows the last [/src/] of the directory of a file that has a
    function named [main.main] and contains no filtered fragment, and that
    directory contains the name searched for. *)
Theorem Import_fallback_sound (env : Env) (order : MapOrder) (ex : Exec)
  (mainfn : Func) (file : string) (line : Z) (p : string) :
  is_order order ->
  LookupFunc (table ex) "main.main" = Some mainfn ->
  PCToLine (table ex) (Entry mainfn) = (file, line, None) ->
  Import env order ex = (p, None) ->
  exists file' obj f,
    In (file', obj) (Files (table ex)) /\ In f (Funcs obj)
    /\ contributes env file' f
    /\ Contains (Filepath.Dir file') (searchname ex) = true
    /\ Filepath.Dir file'
       = slice_to (Filepath.Dir file') (LastIndex (Filepath.Dir file') src)
         ++ src ++ p.
Proof.
  intros Ho Hl Hpc. unfold Import, Import_st. rewrite Hl, Hpc.
  destruct (guesspkg order (searchname ex) _) as [pkg unique] eqn:E.
  destruct unique; cbn [andb]; [|discriminate].
  destruct (negb (String.eqb pkg "")); cbn [snd]; [|discriminate].
  intros [= <-].
  destruct (guesspkg_unique_inv order Ho (searchname ex)
              (scan_files env order (range_files order (Files (table ex))) []))
    as [d [s [Hin [Hs [Hc [_ Hp]]]]]]; [now rewrite E|].
  rewrite E in Hp. cbn [fst] in Hp.
  assert (Hn : Contains d (searchname ex) = true /\ LastIndex d src <> -1).
  { apply counts_name. destruct Hs as [->|[-> _]]; auto. }
  destruct Hn as [Hn Hi].
  apply (scan_files_In env order _ [] d Ho) in Hin as [[]|Hin].
  destruct Hin as [file' [obj [f [Hf [Hfn [Hct ->]]]]]].
  exists file', obj, f. repeat split; try assumption.
  - destruct Ho as [_ Hfiles].
    eapply Permutation_in; [symmetry; apply Hfiles|exact Hf].
  - apply Hct.
  - apply Hct.
  - rewrite Hp. now apply LastIndex_split.
Qed.

Lemma Import_fallback_sound_witness :
  exists file' obj f,
    In (file', obj)
       (Files (table_of ["/usr/lib/go/src/runtime/proc.go";
                         "/home/u/src/x/cmd/prog/main.go"]))
    /\ In f (Funcs obj)
    /\ contributes (env_of "/usr/lib/go" "/root") file' f
    /\ Contains (Filepath.Dir file') "prog" = true
    /\ Filepath.Dir file'
       = slice_to (Filepath.Dir file') (LastIndex (Filepath.Dir file') src)
         ++ src ++ "x/cmd/prog".
Proof.
  apply (Import_fallback_sound (env_of "/usr/lib/go" "/root") reverse_order
           (exec_of "/usr/local/bin/prog" PlatformLinuxAMD64
              (table_of ["/usr/lib/go/src/runtime/proc.go";
                         "/home/u/src/x/cmd/prog/main.go"]))
           main_main "" 0 "x/cmd/prog" reverse_order_is_order);
    reflexivity.
Defined.

(** ** Platform strings *)

Lemma append_sep_injective (c : ascii) (a a' b b' : string) :
  occurs c a = false -> occurs c a' = false ->
  a ++ String c b = a' ++ String c b' -> a = a' /\ b = b'.
Proof.
  revert a'; induction a as [|x a IH]; intros [|y a'] Ha Ha' E; simpl in *.
  - now inversion E.
  - inversion E; subst. now rewrite Ascii.eqb_refl in Ha'.
  - inversion E; subst. now rewrite Ascii.eqb_refl in Ha.
  - inversion E; subst.
    apply orb_false_iff in Ha as [_ Ha]. apply orb_false_iff in Ha' as [_ Ha'].
    destruct (IH a' Ha Ha' H1) as [-> ->]. now split.
Qed.

(** The platform string [os_arch] tells the platform, as long as the names
    of the operating systems contain no underscore: two platforms with the
    same string are the same platform. *)
Theorem PlatformString_injective (p q : PlatformType) :
  occurs "_" (GOOS p) = false -> occurs "_" (GOOS q) = false ->
  PlatformString p = PlatformString q -> p = q.
Proof.
  intros Hp Hq E. unfold PlatformString in E.
  destruct (append_sep_injective "_" _ _ _ _ Hp Hq E) as [Ho Ha].
  destruct p, q. simpl in *. now subst.
Qed.

Lemma PlatformString_injective_witness :
  deref PlatformLinuxAMD64
  = deref (PlatformAt 7 {| GOOS := "linux"; GOARCH := "amd64" |}).
Proof.
  apply (PlatformString_injective (deref PlatformLinuxAMD64)
           (deref (PlatformAt 7 {| GOOS := "linux"; GOARCH := "amd64" |})));
    reflexivity.
Defined.

Lemma Import_path_exclusive_witness :
  exclusive_any
    (Import_path pe_broken no_builder elf_only (list Byte.byte * Z)
       line_table_of (table_from "/build/work/main.go")
       (env_of "/usr/lib/go" "/w") reverse_order "linux" "/bin/tool").
Proof.
  apply Import_path_exclusive.
  - exact reverse_order_is_order.
  - apply env_of_symlinks_clean.
Defined.
